(** * Otimizador de programação de corte: shallow embedding and properties

    The business logic of [otimizador_programacaoSL.py] (descriptor parser,
    setup and urgency classifiers, lot aggregator, sequencer, reporter and
    metrics) is embedded as Rocq functions, followed by the properties
    proved about them.

    Conventions of the embedding:
    - Python [int] is [Z]; a pandas timestamp is a number of nanoseconds
      ([Z]); [NaT]/[NaN]/[None] is [None]; a raised exception is the
      [Erro] alternative of [resultado].
    - The pipeline from the rows of the sheet to the report reads a
      [str] as a Rocq [string] (its UTF-8 bytes) with the ASCII
      character classes, and quantities, weights and thicknesses as
      exact rationals [Q].  This is the arithmetic of Python on whole
      numbers; on decimals Python rounds where [Q] does not.
    - The descriptor parser is also embedded on code points, for any
      text ([Unicode]): the digits, the white space and the upper case
      are those of the interpreter's tables, [float] rounds to the
      nearest double and [int] has its limit on digits.
    - The sequencer and the weight metric are also embedded on the
      numbers of the interpreter ([Numerico]): unbounded [int]s and
      IEEE doubles, with both summation algorithms of [sum]. *)

From Stdlib Require Import ZArith QArith Lia.
From Stdlib Require Import Strings.String Strings.Ascii.
From Stdlib Require Import Numbers.DecimalString Numbers.DecimalPos Numbers.DecimalZ.
From Stdlib Require Import Sorting.Sorted Sorting.Permutation.
From Stdlib Require Floats.PrimFloat Floats.SpecFloat Floats.FloatOps.
From Stdlib Require Numbers.Cyclic.Int63.Uint63.
From stdpp Require Import gmap strings list fin_maps sorting.

Open Scope Z_scope.

(** ** Python values and primitives *)

Module Py.

(** Exceptions that the modelled code can raise. *)
Inductive excecao : Type :=
| KeyError (chave : string).

Inductive resultado (A : Type) : Type :=
| Ok (valor : A)
| Erro (e : excecao).
Arguments Ok {A} valor.
Arguments Erro {A} e.

Definition chars (s : string) : list ascii := list_ascii_of_string s.

(** [\d] on ASCII text: 0 to 9. *)
Definition digito (c : ascii) : bool :=
  let n := N_of_ascii c in ((48 <=? n) && (n <=? 57))%N.

(** [\s] on ASCII text: TAB, LF, VT, FF, CR, the separators 0x1C..0x1F
    and SPACE. *)
Definition espaco (c : ascii) : bool :=
  let n := N_of_ascii c in
  (((9 <=? n) && (n <=? 13)) || ((28 <=? n) && (n <=? 32)))%N.

(** [str.upper] on one character of ASCII text. *)
Definition upper_char (c : ascii) : ascii :=
  let n := N_of_ascii c in
  if ((97 <=? n) && (n <=? 122))%N then ascii_of_N (n - 32) else c.

Definition upper (s : list ascii) : list ascii := map upper_char s.

Fixpoint startswith (p s : list ascii) : bool :=
  match p, s with
  | [], _ => true
  | _ :: _, [] => false
  | a :: p', b :: s' => Ascii.eqb a b && startswith p' s'
  end.

(** [sub in s] *)
Fixpoint contem (sub s : list ascii) : bool :=
  startswith sub s ||
  match s with
  | [] => false
  | _ :: s' => contem sub s'
  end.

(** [s.replace(a, b)] for one-character [a] and [b]. *)
Definition replace (a b : ascii) (s : list ascii) : list ascii :=
  map (fun c => if Ascii.eqb c a then b else c) s.

Definition valor_digito (c : ascii) : Z := Z.of_N (N_of_ascii c) - 48.

(** Value of a run of decimal digits, most significant first. *)
Definition valor_digitos (s : list ascii) : Z :=
  fold_left (fun acc c => 10 * acc + valor_digito c) s 0.

Definition so_digitos (s : list ascii) : bool :=
  match s with
  | [] => false
  | _ => forallb digito s
  end.

(** [int(s)] on the texts the pattern can capture: a non-empty run of
    digits; anything else is the [ValueError] case, [None].  The limit
    of the interpreter on the number of digits is in [Unicode.int_str]. *)
Definition int_str (s : list ascii) : option Z :=
  if so_digitos s then Some (valor_digitos s) else None.

Fixpoint ate_ponto (s : list ascii) : list ascii * option (list ascii) :=
  match s with
  | [] => ([], None)
  | c :: s' =>
      if Ascii.eqb c "."%char then ([], Some s')
      else let '(i, f) := ate_ponto s' in (c :: i, f)
  end.

(** [float(s)] on the texts the pattern can capture: [digits] or
    [digits.digits]; anything else is the [ValueError] case, [None].
    The value is the exact decimal; its rounding to a double is in
    [Unicode.float_str]. *)
Definition float_str (s : list ascii) : option Q :=
  match ate_ponto s with
  | (i, None) =>
      if so_digitos i then Some (valor_digitos i # 1) else None
  | (i, Some f) =>
      if so_digitos i && so_digitos f then
        let escala := Pos.pow 10 (Pos.of_nat (length f)) in
        Some ((valor_digitos i * Zpos escala + valor_digitos f) # escala)
      else None
  end.

(** [N / D] rounded to the nearest integer, to the even one on a tie. *)
Definition arredonda (N D : Z) : Z :=
  let m0 := N / D in
  match 2 * (N mod D) ?= D with
  | Lt => m0
  | Gt => m0 + 1
  | Eq => if Z.even m0 then m0 else m0 + 1
  end.

(** The power of two [u] that leaves [N / (d * 2^u)] with 53 bits, or 0
    when [N / d] has 53 bits or less. *)
Definition ulp_de (N d : Z) : Z :=
  let E := Z.log2 N - Z.log2 d in
  if E <=? 52 then 0
  else if d * 2 ^ E <=? N then E - 52 else E - 53.

(** A scale [s], at most 1074, for which [n * 2^s / d] has more than 53
    bits unless [s] is 1074: no double has a bit below 2^-1074. *)
Definition escala_de (n d : Z) : Z :=
  Z.min 1074 (Z.max 0 (54 + Z.log2 d - Z.log2 n)).

(** The double nearest to [n / d], for positive [n] and [d]: [n / d] is
    counted in units of 2^-s and rounded to 53 significant bits, to the
    nearest and to the even one on a tie. *)
Definition double_positivo (n d : Z) : Q :=
  let s := escala_de n d in
  let N := n * 2 ^ s in
  let u := ulp_de N d in
  let m := arredonda N (d * 2 ^ u) in
  if 2 ^ (1024 + s) <=? m * 2 ^ u then inject_Z (2 ^ 1024)
  else Qred (m * 2 ^ u # Z.to_pos (2 ^ s)).

(** What [float] makes of a decimal text of exact value [q]: the
    nearest double, given by its exact value in lowest terms.  A value
    too large for a double becomes [inf], which stands here as 2^1024,
    above every double. *)
Definition double (q : Q) : Q :=
  match Qnum q with
  | 0 => 0%Q
  | Zpos _ => double_positivo (Qnum q) (Zpos (Qden q))
  | Zneg _ => Qopp (double_positivo (- Qnum q) (Zpos (Qden q)))
  end.

(** [str(n)] for an [int]. *)
Definition str_int (n : Z) : string := NilZero.string_of_int (Z.to_int n).

(** [sum(xs)] in exact arithmetic: left to right from 0. *)
Definition soma (xs : list Q) : Q := fold_left Qplus xs 0%Q.

End Py.
Export Py.

(** ** The fragment of [re] used by the parser

    Backtracking matcher in continuation-passing style: alternatives are
    tried left to right and the quantifiers are greedy, giving characters
    back one at a time when the rest of the pattern fails. *)

Module Re.

Section Regex.
(** The characters: bytes for the ASCII reading of a text, code points
    for the reading of the interpreter. *)
Context {C : Type}.

Inductive regex : Type :=
| Classe (p : C -> bool)                (* one character of a class *)
| Mais (p : C -> bool)                  (* c+ *)
| Estrela (p : C -> bool)               (* c* *)
| Seq (r1 r2 : regex)
| Alt (r1 r2 : regex)                   (* r1|r2 *)
| Grupo (n : nat) (r : regex).          (* capturing group number n *)

Section Casa.
Context {R : Type}.

Fixpoint estrela (p : C -> bool) (s : list C)
    (k : list C -> option R) : option R :=
  match s with
  | c :: s' =>
      if p c then
        match estrela p s' k with
        | Some x => Some x
        | None => k s
        end
      else k s
  | [] => k s
  end.

Definition mais (p : C -> bool) (s : list C)
    (k : list C -> option R) : option R :=
  match s with
  | c :: s' => if p c then estrela p s' k else None
  | [] => None
  end.

(** Text consumed between the input [s] and its suffix [s']. *)
Definition consumido (s s' : list C) : list C :=
  take (length s - length s')%nat s.

Fixpoint casa (r : regex) (s : list C) (g : gmap nat (list C))
    (k : list C -> gmap nat (list C) -> option R) : option R :=
  match r with
  | Classe p =>
      match s with
      | c :: s' => if p c then k s' g else None
      | [] => None
      end
  | Mais p => mais p s (fun s' => k s' g)
  | Estrela p => estrela p s (fun s' => k s' g)
  | Seq r1 r2 => casa r1 s g (fun s' g' => casa r2 s' g' k)
  | Alt r1 r2 =>
      match casa r1 s g k with
      | Some x => Some x
      | None => casa r2 s g k
      end
  | Grupo n r1 =>
      casa r1 s g (fun s' g' => k s' (<[n := consumido s s']> g'))
  end.
End Casa.

(** [re.match]: a match anchored at the start of [s]; the result maps
    group numbers to their text. *)
Definition re_match (r : regex) (s : list C)
    : option (gmap nat (list C)) :=
  casa r s ∅ (fun _ g => Some g).

(** [re.search]: the match at the leftmost position that has one. *)
Fixpoint re_search (r : regex) (s : list C)
    : option (gmap nat (list C)) :=
  match re_match r s with
  | Some m => Some m
  | None =>
      match s with
      | [] => None
      | _ :: s' => re_search r s'
      end
  end.

End Regex.
Arguments regex C : clear implicits.

End Re.
Export Re.

(** ** Descriptor parser *)

(** The argument of [parse_dimensoes]: a [str], or any other object
    (a missing cell read as [NaN], [None], ...). *)
Inductive descricao : Type :=
| Texto (s : string)
| NaoTexto.

Definition ponto_ou_virgula (c : ascii) : bool :=
  Ascii.eqb c "."%char || Ascii.eqb c ","%char.

Definition letra_X (c : ascii) : bool := Ascii.eqb c "X"%char.

(** [r'(\d+[\.,]\d+|\d+)\s*X\s*(\d+)'] *)
Definition padrao : regex ascii :=
  Seq (Grupo 1 (Alt (Seq (Mais digito) (Seq (Classe ponto_ou_virgula) (Mais digito)))
                    (Mais digito)))
      (Seq (Estrela espaco)
           (Seq (Classe letra_X)
                (Seq (Estrela espaco)
                     (Grupo 2 (Mais digito))))).

Definition marca_rebaixado : list ascii := chars "REBAIXAD".

Definition parse_dimensoes (descricao_produto : descricao)
    : option Q * option Z :=
  match descricao_produto with
  | NaoTexto => (None, None)
  | Texto s =>
      if contem marca_rebaixado (upper (chars s)) then (None, None)
      else
        match re_search padrao (chars s) with
        | Some m =>
            match m !! 1%nat, m !! 2%nat with
            | Some g1, Some g2 =>
                match float_str (replace ","%char "."%char g1), int_str g2 with
                | Some espessura, Some largura => (Some espessura, Some largura)
                | _, _ => (None, None)
                end
            | _, _ => (None, None)
            end
        | None => (None, None)
        end
  end.

(** ** Setup classifier *)

Definition plaina (espessura : Q) : string :=
  if Qle_bool espessura 4.75 then "PLAINA_FINA" else "PLAINA_GROSSA".

Definition determinar_setup (espessura : option Q) (largura : option Z)
    : string :=
  match espessura, largura with
  | Some e, Some l =>
      let balancim := str_int l +:+ "mm" in
      plaina e +:+ "_" +:+ balancim
  | _, _ => "SETUP_INDEFINIDO"
  end.

(** ** Urgency classifier *)

Definition NS_POR_DIA : Z := 86400 * 1000000000.

(** [Timedelta.days]: whole days, rounded towards minus infinity. *)
Definition days (delta : Z) : Z := delta / NS_POR_DIA.

Definition calcular_urgencia (data_entrega : option Z) (data_atual : Z)
    : Z * string :=
  match data_entrega with
  | None => (5, "5 - COM FOLGA (SEM DATA)")
  | Some entrega =>
      let dias_atraso := days (data_atual - entrega) in
      if 10 <? dias_atraso then (1, "1 - URGENTÍSSIMO")
      else if (5 <=? dias_atraso) && (dias_atraso <=? 10) then (2, "2 - URGENTE")
      else if (0 <=? dias_atraso) && (dias_atraso <=? 4) then (3, "3 - ATRASADO")
      else if (-10 <=? dias_atraso) && (dias_atraso <? 0) then (4, "4 - NO TEMPO")
      else (5, "5 - COM FOLGA")
  end.

(** ** Data model *)

(** One row of the input sheet; only the columns the logic reads.  A
    quantity that is not numeric is [None] (the [NaN] of
    [to_numeric(errors='coerce')]). *)
Record LineItem : Type := {
  row_LOTE : string;
  row_PRODUTO : descricao;
  row_QTDE : option Q;
  row_DATA_DE_ENTREGA : option Z
}.

(** One record of [lotes]; the fields are the keys of the dict. *)
Record Lote : Type := {
  LOTE : string;
  PESO_TOTAL : Q;
  DATA_ENTREGA : option Z;
  SETUP : string;
  URGENCIA_NIVEL : Z;
  URGENCIA_NOME : string;
  ESPESSURA : Q
}.

Inductive Coluna : Type :=
| C_LOTE | C_PESO_TOTAL | C_DATA_ENTREGA | C_SETUP
| C_URGENCIA_NIVEL | C_URGENCIA_NOME | C_ESPESSURA.

#[global] Instance Coluna_eq_dec : EqDecision Coluna.
Proof. solve_decision. Defined.

Definition nome_coluna (c : Coluna) : string :=
  match c with
  | C_LOTE => "LOTE"
  | C_PESO_TOTAL => "PESO_TOTAL"
  | C_DATA_ENTREGA => "DATA_ENTREGA"
  | C_SETUP => "SETUP"
  | C_URGENCIA_NIVEL => "URGENCIA_NIVEL"
  | C_URGENCIA_NOME => "URGENCIA_NOME"
  | C_ESPESSURA => "ESPESSURA"
  end.

(** The frame of aggregated lots: its column labels and its rows. *)
Record DataFrame : Type := {
  columns : list Coluna;
  records : list Lote
}.

(** [pd.DataFrame(lotes)] for a list of dicts: the columns are the keys
    found in the dicts, so the frame of an empty list has no column. *)
Definition pd_DataFrame (lotes : list Lote) : DataFrame :=
  {| columns :=
       match lotes with
       | [] => []
       | _ :: _ => [C_LOTE; C_PESO_TOTAL; C_DATA_ENTREGA; C_SETUP;
                    C_URGENCIA_NIVEL; C_URGENCIA_NOME; C_ESPESSURA]
       end;
     records := lotes |}.

(** ** Sorting a frame *)

(** Ascending order of dates; a missing date comes last
    ([na_position='last']). *)
Definition compara_data (x y : option Z) : comparison :=
  match x, y with
  | Some x, Some y => Z.compare x y
  | Some _, None => Lt
  | None, Some _ => Gt
  | None, None => Eq
  end.

(** Ascending order of one column. *)
Definition compara_col (c : Coluna) (a b : Lote) : comparison :=
  match c with
  | C_LOTE => String.compare (LOTE a) (LOTE b)
  | C_PESO_TOTAL => Qcompare (PESO_TOTAL a) (PESO_TOTAL b)
  | C_DATA_ENTREGA => compara_data (DATA_ENTREGA a) (DATA_ENTREGA b)
  | C_SETUP => String.compare (SETUP a) (SETUP b)
  | C_URGENCIA_NIVEL => Z.compare (URGENCIA_NIVEL a) (URGENCIA_NIVEL b)
  | C_URGENCIA_NOME => String.compare (URGENCIA_NOME a) (URGENCIA_NOME b)
  | C_ESPESSURA => Qcompare (ESPESSURA a) (ESPESSURA b)
  end.

(** Lexicographic order on the columns of [by]. *)
Fixpoint compara_por (by_ : list Coluna) (a b : Lote) : comparison :=
  match by_ with
  | [] => Eq
  | c :: resto =>
      match compara_col c a b with
      | Eq => compara_por resto a b
      | r => r
      end
  end.

Section Ordenar.
Context {A : Type} (cmp : A -> A -> comparison).

(** Insertion before the first strictly greater element keeps equal
    elements in their order of arrival. *)
Fixpoint inserir (x : A) (l : list A) : list A :=
  match l with
  | [] => [x]
  | y :: l' =>
      match cmp x y with
      | Gt => y :: inserir x l'
      | _ => x :: l
      end
  end.

(** A stable sort. *)
Definition ordenar (l : list A) : list A := fold_right inserir [] l.
End Ordenar.

(** [df.sort_values(by=[...])] with several labels: [KeyError] on the
    first label that is not a column, else the rows in stable
    lexicographic order. *)
Definition sort_values (df : DataFrame) (by_ : list Coluna)
    : resultado DataFrame :=
  match List.find (fun c => negb (bool_decide (c ∈ columns df))) by_ with
  | Some c => Erro (KeyError (nome_coluna c))
  | None =>
      Ok {| columns := columns df;
            records := ordenar (compara_por by_) (records df) |}
  end.

(** ** Lot aggregator *)

Fixpoint inserir_chave (k : string) (l : list string) : list string :=
  match l with
  | [] => [k]
  | y :: l' =>
      match String.compare k y with
      | Lt => k :: l
      | Eq => l
      | Gt => y :: inserir_chave k l'
      end
  end.

(** The group keys of [groupby]: distinct, in ascending order
    ([sort=True] is the default). *)
Definition chaves_ordenadas (l : list string) : list string :=
  fold_right inserir_chave [] l.

(** [df.groupby('LOTE')]: one group per key, keys ascending, the rows of
    a group in their original order. *)
Definition groupby (df : list LineItem) : list (string * list LineItem) :=
  map (fun k => (k, filter (fun r => row_LOTE r = k) df))
      (chaves_ordenadas (map row_LOTE df)).

(** [Series.min()] of a date column: missing values are skipped, and the
    result is missing when all are. *)
Definition min_datas (l : list (option Z)) : option Z :=
  fold_left (fun acc d =>
               match acc, d with
               | Some a, Some b => Some (Z.min a b)
               | None, _ => d
               | _, None => acc
               end) l None.

(** The [for produto in grupo['PRODUTO']] loop with its [break]. *)
Fixpoint primeira_dimensao (produtos : list descricao)
    : option Q * option Z :=
  match produtos with
  | [] => (None, None)
  | produto :: resto =>
      let '(espessura, largura) := parse_dimensoes produto in
      match espessura with
      | Some _ => (espessura, largura)
      | None => primeira_dimensao resto
      end
  end.

Definition lote_do_grupo (DATA_ATUAL : Z) (lote_id : string)
    (grupo : list LineItem) : Lote :=
  let qtde_numerica := map (fun r => default 0%Q (row_QTDE r)) grupo in
  let peso_total_lote := soma qtde_numerica in
  let data_entrega_lote := min_datas (map row_DATA_DE_ENTREGA grupo) in
  let '(espessura_lote, largura_lote) :=
    primeira_dimensao (map row_PRODUTO grupo) in
  let setup_lote := determinar_setup espessura_lote largura_lote in
  let '(urgencia_num, urgencia_nome) :=
    calcular_urgencia data_entrega_lote DATA_ATUAL in
  {| LOTE := lote_id; PESO_TOTAL := peso_total_lote;
     DATA_ENTREGA := data_entrega_lote; SETUP := setup_lote;
     URGENCIA_NIVEL := urgencia_num; URGENCIA_NOME := urgencia_nome;
     ESPESSURA := default 999%Q espessura_lote |}.

(** [DATA_ATUAL] is the module-level [datetime.now()], read once. *)
Definition processar_dados_lote (DATA_ATUAL : Z) (df_original : list LineItem)
    : DataFrame :=
  pd_DataFrame
    (map (fun '(lote_id, grupo) => lote_do_grupo DATA_ATUAL lote_id grupo)
         (groupby df_original)).

(** ** Sequencer *)

Record Batch : Type := {
  setup : string;
  peso : Q;
  atingiu_meta : bool
}.

Definition PESO_META_BATCH : Q := 120.

Definition fechar_batch (current_batch_setup : string)
    (current_batch_weight : Q) : Batch :=
  {| setup := current_batch_setup;
     peso := current_batch_weight;
     atingiu_meta := Qle_bool PESO_META_BATCH current_batch_weight |}.

(** One turn of the [for lote in sequencia_otimizada_lotes] loop on the
    state (batches_info, current_batch_weight, current_batch_setup). *)
Definition passo_batch (estado : list Batch * Q * string) (lote : Lote)
    : list Batch * Q * string :=
  let '(batches_info, current_batch_weight, current_batch_setup) := estado in
  let '(batches_info, current_batch_weight, current_batch_setup) :=
    if bool_decide (SETUP lote ≠ current_batch_setup) then
      (batches_info ++ [fechar_batch current_batch_setup current_batch_weight],
       0%Q, SETUP lote)
    else (batches_info, current_batch_weight, current_batch_setup) in
  (batches_info, (current_batch_weight + PESO_TOTAL lote)%Q, current_batch_setup).

(** The loop and the closing of the last batch after it. *)
Definition laco_batches (sequencia : list Lote)
    (estado : list Batch * Q * string) : list Batch :=
  let '(batches_info, current_batch_weight, current_batch_setup) :=
    fold_left passo_batch sequencia estado in
  batches_info ++ [fechar_batch current_batch_setup current_batch_weight].

Definition otimizar_sequencia (df_lotes : DataFrame)
    (priorities : Coluna * Coluna * Coluna)
    : resultado (list Lote * list Batch) :=
  let '(p1, p2, p3) := priorities in
  match sort_values df_lotes [p1; p2; p3; C_DATA_ENTREGA] with
  | Erro e => Erro e
  | Ok df_lotes_sorted =>
      let sequencia_otimizada_lotes := records df_lotes_sorted in
      match sequencia_otimizada_lotes with
      | [] => Ok ([], [])
      | primeiro :: _ =>
          Ok (sequencia_otimizada_lotes,
              laco_batches sequencia_otimizada_lotes ([], 0%Q, SETUP primeiro))
      end
  end.

(** ** Reporter *)

(** A row of the detail report: the original row with the three columns
    the reporter attaches (date formatting and column order are left to
    the sheet writer). *)
Record LinhaRelatorio : Type := {
  Posicao_na_Sequencia : Z;
  linha_original : LineItem;
  rel_SETUP : option string;
  rel_URGENCIA : option string
}.

(** [Series.unique()]: the distinct values in order of first appearance. *)
Fixpoint unique (l : list string) : list string :=
  match l with
  | [] => []
  | x :: l' => x :: filter (fun y => y ≠ x) (unique l')
  end.

(** [enumerate(l)] *)
Definition enumerate {A : Type} (l : list A) : list (nat * A) := imap pair l.

(** [{lote_id: i + 1 for i, lote_id in enumerate(lotes_ordenados)}] *)
Definition mapa_posicao_de (lotes_ordenados : list string) : gmap string Z :=
  foldl (fun m '(i, lote_id) => <[lote_id := Z.of_nat i + 1]> m) ∅
        (enumerate lotes_ordenados).

(** [drop_duplicates(subset=['LOTE'])]: the first row of each lot id. *)
Fixpoint drop_duplicates (l : list Lote) : list Lote :=
  match l with
  | [] => []
  | x :: l' => x :: filter (fun y => LOTE y ≠ LOTE x) (drop_duplicates l')
  end.

(** [set_index('LOTE')] of a frame without duplicated lot ids. *)
Definition set_index (l : list Lote) : gmap string Lote :=
  list_to_map (map (fun x => (LOTE x, x)) l).

(** One row of [df_final]: the three [map] columns, and [dropna] on the
    position ([None] when the lot id has no position). *)
Definition linha_final (mapa_posicao : gmap string Z)
    (mapa_info : gmap string Lote) (r : LineItem) : option LinhaRelatorio :=
  match mapa_posicao !! row_LOTE r with
  | Some posicao =>
      Some {| Posicao_na_Sequencia := posicao;
              linha_original := r;
              rel_SETUP := SETUP <$> mapa_info !! row_LOTE r;
              rel_URGENCIA := URGENCIA_NOME <$> mapa_info !! row_LOTE r |}
  | None => None
  end.

Section Relatorio.
(** [sort_values(by='Posição na Sequência')]: a single label is sorted
    with numpy's default quicksort, which promises no order among equal
    positions; the sort is a parameter, known only to return the rows
    in ascending order of position. *)
Variable sort_values_posicao : list LinhaRelatorio -> list LinhaRelatorio.

Definition gerar_relatorio_final (sequencia_lotes : list Lote)
    (df_original : list LineItem) : list LinhaRelatorio :=
  match sequencia_lotes with
  | [] => []
  | _ :: _ =>
      let lotes_ordenados := unique (map LOTE sequencia_lotes) in
      let mapa_posicao := mapa_posicao_de lotes_ordenados in
      let mapa_info := set_index (drop_duplicates sequencia_lotes) in
      let df_final := omap (linha_final mapa_posicao mapa_info) df_original in
      sort_values_posicao df_final
  end.
End Relatorio.

(** ** Metrics *)

(** The numbers of the metrics table, before they are formatted. *)
Record Metricas : Type := {
  total_lotes_processados : Z;
  peso_total_processado : Q;
  num_batches : Z;
  total_mudancas_setup : Z;
  batches_na_meta : Z;
  perc_batches_na_meta : Q;
  peso_medio_batch : Q
}.

(** [None] stands for the pair of empty frames returned when there is no
    batch; the urgency distribution table is not modelled. *)
Definition calcular_metricas (sequencia_lotes : list Lote)
    (batches_info : list Batch) : option Metricas :=
  match batches_info with
  | [] => None
  | _ :: _ =>
      let num_batches := Z.of_nat (length batches_info) in
      let total_mudancas_setup :=
        if 0 <? num_batches then num_batches - 1 else 0 in
      let batches_na_meta :=
        Z.of_nat (length (filter (fun b => atingiu_meta b = true) batches_info)) in
      let perc_batches_na_meta :=
        if 0 <? num_batches
        then (inject_Z batches_na_meta / inject_Z num_batches * 100)%Q
        else 0%Q in
      let peso_total_processado := soma (map peso batches_info) in
      let peso_medio_batch :=
        if 0 <? num_batches
        then (peso_total_processado / inject_Z num_batches)%Q
        else 0%Q in
      Some {| total_lotes_processados :=
                Z.of_nat (length (drop_duplicates sequencia_lotes));
              peso_total_processado := peso_total_processado;
              num_batches := num_batches;
              total_mudancas_setup := total_mudancas_setup;
              batches_na_meta := batches_na_meta;
              perc_batches_na_meta := perc_batches_na_meta;
              peso_medio_batch := peso_medio_batch |}
  end.

(** ** Sequencer and weight metric on the numbers of the interpreter

    The code of the sequencer and of the metrics asks four things of a
    weight: to be added to ([0 + w], [w + w']), to be compared with the
    goal ([w >= 120]), to be summed by the built-in [sum] and, when
    [PESO_TOTAL] is a sort label, to be ordered.  A weight column holds
    Python [int]s when every quantity of the sheet is whole and
    [float]s (IEEE doubles) otherwise; [Numero] is that interface, and
    the functions below are the same code as above, read on any such
    numbers. *)

Module Numerico.
Import PrimFloat.

Class Numero (W : Type) : Type := {
  zero : W;                                  (* the [0] the sums start from *)
  mais : W -> W -> W;                        (* [+] *)
  atinge_meta : W -> bool;                   (* [w >= PESO_META_BATCH] *)
  compara_numero : W -> W -> comparison;     (* ascending order, [NaN] last *)
  soma : list W -> W                         (* the built-in [sum] *)
}.

(** [current_batch_weight = 0] followed by [+=] for each number of
    [xs]: additions from left to right. *)
Definition acumula {W : Type} `{Numero W} (xs : list W) : W :=
  fold_left mais xs zero.

(** [int]: unbounded integers, summed from left to right. *)
#[global] Instance Numero_int : Numero Z := {|
  zero := 0;
  mais := Z.add;
  atinge_meta := fun w => 120 <=? w;
  compara_numero := Z.compare;
  soma := fun xs => fold_left Z.add xs 0
|}.

Definition compara_float (a b : float) : comparison :=
  match is_nan a, is_nan b with
  | true, true => Eq
  | true, false => Gt
  | false, true => Lt
  | false, false =>
      if ltb a b then Lt else if ltb b a then Gt else Eq
  end.

(** [float]: IEEE 754 binary64, every operation rounded to nearest;
    [sum] adds from left to right (before Python 3.12). *)
#[global] Instance Numero_float : Numero float := {|
  zero := PrimFloat.zero;
  mais := add;
  atinge_meta := fun w => leb 120%float w;
  compara_numero := compara_float;
  soma := fun xs => fold_left add xs PrimFloat.zero
|}.

(** The loop of [sum] on floats since Python 3.12: Neumaier's
    compensated summation, [f] the running sum and [c] the running
    compensation. *)
Fixpoint soma_compensada (xs : list float) (f c : float) : float :=
  match xs with
  | [] => if negb (eqb c PrimFloat.zero) && is_finite c then add f c else f
  | x :: xs' =>
      let t := add f x in
      let c := if leb (abs x) (abs f)
               then add c (add (sub f t) x)
               else add c (add (sub x t) f) in
      soma_compensada xs' t c
  end.

(** [float] with the [sum] of Python 3.12 and later: the first number is
    added to the [int] 0 and the others are summed with compensation. *)
Definition Numero_float_312 : Numero float := {|
  zero := PrimFloat.zero;
  mais := add;
  atinge_meta := fun w => leb 120%float w;
  compara_numero := compara_float;
  soma := fun xs =>
    match xs with
    | [] => PrimFloat.zero
    | x :: xs' => soma_compensada xs' (add PrimFloat.zero x) PrimFloat.zero
    end
|}.

(** The number a finite double stands for. *)
Definition valor_exato (x : float) : Q :=
  match FloatOps.Prim2SF x with
  | SpecFloat.S754_finite s m e =>
      let v := if 0 <=? e then inject_Z (Zpos m * 2 ^ e)
               else Zpos m # Z.to_pos (2 ^ (- e)) in
      if s then Qopp v else v
  | _ => 0%Q
  end.

(** The quotient of two whole numbers below 2^53 as the processor
    computes it: both are doubles, and their division is rounded to
    the nearest double. *)
Definition quociente_float (n d : Z) : float :=
  div (of_uint63 (Uint63.of_Z n)) (of_uint63 (Uint63.of_Z d)).

(** The whole numbers from 1 to [k]. *)
Definition ate (k : nat) : list Z := map Z.of_nat (seq 1 k).

Section Numeros.
Context {W : Type} `{Numero W}.

Record Lote : Type := {
  LOTE : string;
  PESO_TOTAL : W;
  DATA_ENTREGA : option Z;
  SETUP : string;
  URGENCIA_NIVEL : Z;
  URGENCIA_NOME : string;
  ESPESSURA : Q
}.

Record DataFrame : Type := {
  columns : list Coluna;
  records : list Lote
}.

(** [pd.DataFrame(lotes)] *)
Definition pd_DataFrame (lotes : list Lote) : DataFrame :=
  {| columns :=
       match lotes with
       | [] => []
       | _ :: _ => [C_LOTE; C_PESO_TOTAL; C_DATA_ENTREGA; C_SETUP;
                    C_URGENCIA_NIVEL; C_URGENCIA_NOME; C_ESPESSURA]
       end;
     records := lotes |}.

Definition compara_col (c : Coluna) (a b : Lote) : comparison :=
  match c with
  | C_LOTE => String.compare (LOTE a) (LOTE b)
  | C_PESO_TOTAL => compara_numero (PESO_TOTAL a) (PESO_TOTAL b)
  | C_DATA_ENTREGA => compara_data (DATA_ENTREGA a) (DATA_ENTREGA b)
  | C_SETUP => String.compare (SETUP a) (SETUP b)
  | C_URGENCIA_NIVEL => Z.compare (URGENCIA_NIVEL a) (URGENCIA_NIVEL b)
  | C_URGENCIA_NOME => String.compare (URGENCIA_NOME a) (URGENCIA_NOME b)
  | C_ESPESSURA => Qcompare (ESPESSURA a) (ESPESSURA b)
  end.

Fixpoint compara_por (by_ : list Coluna) (a b : Lote) : comparison :=
  match by_ with
  | [] => Eq
  | c :: resto =>
      match compara_col c a b with
      | Eq => compara_por resto a b
      | r => r
      end
  end.

(** [df.sort_values(by=[...])] *)
Definition sort_values (df : DataFrame) (by_ : list Coluna)
    : resultado DataFrame :=
  match List.find (fun c => negb (bool_decide (c ∈ columns df))) by_ with
  | Some c => Erro (KeyError (nome_coluna c))
  | None =>
      Ok {| columns := columns df;
            records := ordenar (compara_por by_) (records df) |}
  end.

Record Batch : Type := {
  setup : string;
  peso : W;
  atingiu_meta : bool
}.

Definition fechar_batch (current_batch_setup : string)
    (current_batch_weight : W) : Batch :=
  {| setup := current_batch_setup;
     peso := current_batch_weight;
     atingiu_meta := atinge_meta current_batch_weight |}.

(** One turn of the [for lote in sequencia_otimizada_lotes] loop. *)
Definition passo_batch (estado : list Batch * W * string) (lote : Lote)
    : list Batch * W * string :=
  let '(batches_info, current_batch_weight, current_batch_setup) := estado in
  let '(batches_info, current_batch_weight, current_batch_setup) :=
    if bool_decide (SETUP lote ≠ current_batch_setup) then
      (batches_info ++ [fechar_batch current_batch_setup current_batch_weight],
       zero, SETUP lote)
    else (batches_info, current_batch_weight, current_batch_setup) in
  (batches_info, mais current_batch_weight (PESO_TOTAL lote), current_batch_setup).

Definition laco_batches (sequencia : list Lote)
    (estado : list Batch * W * string) : list Batch :=
  let '(batches_info, current_batch_weight, current_batch_setup) :=
    fold_left passo_batch sequencia estado in
  batches_info ++ [fechar_batch current_batch_setup current_batch_weight].

Definition otimizar_sequencia (df_lotes : DataFrame)
    (priorities : Coluna * Coluna * Coluna)
    : resultado (list Lote * list Batch) :=
  let '(p1, p2, p3) := priorities in
  match sort_values df_lotes [p1; p2; p3; C_DATA_ENTREGA] with
  | Erro e => Erro e
  | Ok df_lotes_sorted =>
      let sequencia_otimizada_lotes := records df_lotes_sorted in
      match sequencia_otimizada_lotes with
      | [] => Ok ([], [])
      | primeiro :: _ =>
          Ok (sequencia_otimizada_lotes,
              laco_batches sequencia_otimizada_lotes ([], zero, SETUP primeiro))
      end
  end.

(** [drop_duplicates(subset=['LOTE'])] *)
Fixpoint drop_duplicates (l : list Lote) : list Lote :=
  match l with
  | [] => []
  | x :: l' => x :: filter (fun y => LOTE y ≠ LOTE x) (drop_duplicates l')
  end.

(** The numbers of the metrics table that are counted or summed; the
    percentage and the mean, two quotients, are left out. *)
Record Metricas : Type := {
  total_lotes_processados : Z;
  peso_total_processado : W;
  num_batches : Z;
  total_mudancas_setup : Z;
  batches_na_meta : Z
}.

Definition calcular_metricas (sequencia_lotes : list Lote)
    (batches_info : list Batch) : option Metricas :=
  match batches_info with
  | [] => None
  | _ :: _ =>
      let num_batches := Z.of_nat (length batches_info) in
      let total_mudancas_setup :=
        if 0 <? num_batches then num_batches - 1 else 0 in
      let batches_na_meta :=
        Z.of_nat (length (filter (fun b => atingiu_meta b = true) batches_info)) in
      let peso_total_processado := soma (map peso batches_info) in
      Some {| total_lotes_processados :=
                Z.of_nat (length (drop_duplicates sequencia_lotes));
              peso_total_processado := peso_total_processado;
              num_batches := num_batches;
              total_mudancas_setup := total_mudancas_setup;
              batches_na_meta := batches_na_meta |}
  end.

(** The runs the batching loop walks through: the open run [cur] of key
    [s] is extended by the lots of [l] while their key is [s], and a
    lot of another key opens the next run. *)
Fixpoint trechos (s : string) (cur : list Lote) (l : list Lote)
    : list (string * list Lote) :=
  match l with
  | [] => [(s, cur)]
  | x :: l' =>
      if decide (SETUP x = s) then trechos s (cur ++ [x]) l'
      else (s, cur) :: trechos (SETUP x) [x] l'
  end.

End Numeros.

Arguments Lote W : clear implicits.
Arguments DataFrame W : clear implicits.
Arguments Batch W : clear implicits.
Arguments Metricas W : clear implicits.

(** Arithmetic is exact: what holds of [int] and fails of [float]. *)
Class Exato (W : Type) `{Numero W} : Prop := {
  mais_assoc : forall a b c : W, mais a (mais b c) = mais (mais a b) c;
  mais_comm : forall a b : W, mais a b = mais b a;
  mais_zero : forall a : W, mais zero a = a;
  soma_acumula : forall xs : list W, soma xs = acumula xs
}.

Definition lote_de {W : Type} (id chave : string) (p : W) (nivel : Z) : Lote W :=
  {| LOTE := id; PESO_TOTAL := p; DATA_ENTREGA := None; SETUP := chave;
     URGENCIA_NIVEL := nivel; URGENCIA_NOME := ""; ESPESSURA := 999%Q |}.

(** Four lots with the weights 20.697 and 18.712 (setup A), 9.198 and
    5.998 (setup B), each the double nearest to the decimal. *)
Definition lotes_float : list (Lote float) :=
  [lote_de "L1" "A" 0x1.4b26e978d4fdfp+4%float 1;
   lote_de "L2" "A" 0x1.2b645a1cac083p+4%float 1;
   lote_de "L3" "B" 0x1.265604189374cp+3%float 2;
   lote_de "L4" "B" 0x1.7fdf3b645a1cbp+2%float 2].

(** The doubles printed as 54.605000000000004 and 54.605, a unit in the
    last place apart; with two decimals they read 54.61 and 54.60. *)
Definition float_54_605000000000004 : float := 0x1.b4d70a3d70a3ep+5%float.
Definition float_54_605 : float := 0x1.b4d70a3d70a3dp+5%float.

(** The lots of the batch-closing example, with [int] weights. *)
Definition lotes_int : list (Lote Z) :=
  [lote_de "L1" "A" 40 1; lote_de "L2" "A" 40 1;
   lote_de "L3" "B" 30 2; lote_de "L4" "B" 30 2;
   lote_de "L5" "B" 70 2; lote_de "L6" "A" 10 3].

End Numerico.

(** ** Priority selection of the interface *)

(** [priority_map], a dict literal: interface label to column, in
    insertion order. *)
Definition priority_map : list (string * Coluna) :=
  [("Urgência (Data)", C_URGENCIA_NIVEL);
   ("Setup (Plaina/Largura)", C_SETUP);
   ("Espessura", C_ESPESSURA)].

(** [list(priority_map.keys())] *)
Definition priority_options : list string := map fst priority_map.

(** [[opt for opt in priority_options if opt != p1_selection]] *)
Definition options_p2 (p1_selection : string) : list string :=
  filter (fun opt => opt ≠ p1_selection) priority_options.

(** [[opt for opt in priority_options
      if opt not in [p1_selection, p2_selection]]] *)
Definition options_p3 (p1_selection p2_selection : string) : list string :=
  filter (fun opt => opt ∉ [p1_selection; p2_selection]) priority_options.

(** [d[p]] on a dict given by its items: [KeyError] on a missing key. *)
Fixpoint dict_get (d : list (string * Coluna)) (p : string) : resultado Coluna :=
  match d with
  | [] => Erro (KeyError p)
  | (k, v) :: d' => if decide (k = p) then Ok v else dict_get d' p
  end.

(** [[priority_map[p] for p in priorities_keys]] followed by the
    unpacking [p1, p2, p3 = priorities] of the sequencer. *)
Definition priorities_de (p1_selection p2_selection p3_selection : string)
    : resultado (Coluna * Coluna * Coluna) :=
  match dict_get priority_map p1_selection with
  | Erro e => Erro e
  | Ok c1 =>
      match dict_get priority_map p2_selection with
      | Erro e => Erro e
      | Ok c2 =>
          match dict_get priority_map p3_selection with
          | Erro e => Erro e
          | Ok c3 => Ok (c1, c2, c3)
          end
      end
  end.

(** ** Vocabulary of the properties *)

(** What the sort asks of a three-way comparison. *)
Class Comparador {A : Type} (cmp : A -> A -> comparison) : Prop := {
  cmp_antisym : forall a b, cmp b a = CompOpp (cmp a b);
  cmp_eq_compat : forall a b c, cmp a b = Eq -> cmp a c = cmp b c;
  cmp_lt_trans : forall a b c, cmp a b = Lt -> cmp b c = Lt -> cmp a c = Lt
}.

(** [a] is not after [b]. *)
Definition nao_depois {A : Type} (cmp : A -> A -> comparison) (a b : A) : Prop :=
  cmp a b <> Gt.

(** The elements of [l] whose sort key equals that of [a]. *)
Definition mesma_chave {A : Type} (cmp : A -> A -> comparison) (a : A)
    (l : list A) : list A :=
  List.filter (fun x => match cmp a x with Eq => true | _ => false end) l.

(** The runs that the batching loop walks through: the open run [cur]
    of key [s] is extended by the lots of [l] while their key is [s],
    and a lot of another key opens the next run. *)
Fixpoint trechos (s : string) (cur : list Lote) (l : list Lote)
    : list (string * list Lote) :=
  match l with
  | [] => [(s, cur)]
  | x :: l' =>
      if decide (SETUP x = s) then trechos s (cur ++ [x]) l'
      else (s, cur) :: trechos (SETUP x) [x] l'
  end.

Definition batch_do_trecho (t : string * list Lote) : Batch :=
  fechar_batch t.1 (soma (map PESO_TOTAL t.2)).

(** The [by] list of the sequencer. *)
Definition chaves (p1 p2 p3 : Coluna) : list Coluna :=
  [p1; p2; p3; C_DATA_ENTREGA].

(** The lots of the batch-closing example: keys A,A,B,B,B,A with weights
    40,40,30,30,70,10, already in sequence order by urgency tier. *)
Definition lote_exemplo (id chave : string) (p : Q) (nivel : Z) : Lote :=
  {| LOTE := id; PESO_TOTAL := p; DATA_ENTREGA := None; SETUP := chave;
     URGENCIA_NIVEL := nivel; URGENCIA_NOME := ""; ESPESSURA := 999%Q |}.

Definition lotes_exemplo : list Lote :=
  [lote_exemplo "L1" "A" 40 1; lote_exemplo "L2" "A" 40 1;
   lote_exemplo "L3" "B" 30 2; lote_exemplo "L4" "B" 30 2;
   lote_exemplo "L5" "B" 70 2; lote_exemplo "L6" "A" 10 3].

Definition prioridades_exemplo : Coluna * Coluna * Coluna :=
  (C_URGENCIA_NIVEL, C_SETUP, C_ESPESSURA).

(** Two rows whose lot ids first appear as B, then A. *)
Definition linha_exemplo (id : string) : LineItem :=
  {| row_LOTE := id; row_PRODUTO := Texto "BOB 4,75X1250";
     row_QTDE := Some 10%Q; row_DATA_DE_ENTREGA := None |}.

Definition linhas_exemplo : list LineItem :=
  [linha_exemplo "B"; linha_exemplo "A"; linha_exemplo "B"].

(** Ascending order of lot ids. *)
Definition antes (a b : string) : Prop := String.compare a b = Lt.

(** The sequence of the rows [linhas_exemplo], and a sort by position. *)
Definition sequencia_exemplo : list Lote :=
  match otimizar_sequencia (processar_dados_lote 0 linhas_exemplo)
          prioridades_exemplo with
  | Ok (sequencia, _) => sequencia
  | Erro _ => []
  end.

Definition compara_posicao (a b : LinhaRelatorio) : comparison :=
  Z.compare (Posicao_na_Sequencia a) (Posicao_na_Sequencia b).

(** *** The pattern <thickness>X<width>, in words *)

Definition todos {C : Type} (p : C -> bool) (l : list C) : Prop :=
  Forall (fun c => p c = true) l.

(** [s] is empty or starts with a character outside the class [p]. *)
Definition nao_comeca {C : Type} (p : C -> bool) (s : list C) : Prop :=
  match s with
  | c :: _ => p c = false
  | [] => True
  end.

(** A non-empty run of decimal digits. *)
Definition digitos (l : list ascii) : Prop := l <> [] /\ todos digito l.

(** A thickness text and its value: an integer, or an integer part, a
    point or a comma, and a fractional part. *)
Inductive texto_decimal : list ascii -> Q -> Prop :=
| td_inteiro (i : list ascii) :
    digitos i -> texto_decimal i (valor_digitos i # 1)
| td_fracao (i : list ascii) (c : ascii) (f : list ascii) :
    digitos i -> ponto_ou_virgula c = true -> digitos f ->
    texto_decimal (i ++ c :: f)
      ((valor_digitos i * Zpos (Pos.pow 10 (Pos.of_nat (length f)))
        + valor_digitos f) # Pos.pow 10 (Pos.of_nat (length f))).

(** [s] is a thickness text [t], white space, the letter X, white
    space, a width [w] and whatever follows, [resto]. *)
Definition ocorrencia (t w resto s : list ascii) : Prop :=
  exists e1 e2,
    s = t ++ e1 ++ "X"%char :: e2 ++ w ++ resto
    /\ todos espaco e1 /\ todos espaco e2 /\ digitos w.

Definition padrao_no_inicio (s : list ascii) : Prop :=
  exists t v w resto, texto_decimal t v /\ ocorrencia t w resto s.

(** The numeric quantity of a row ([fillna(0)] after the coercion). *)
Definition quantidade (r : LineItem) : Q := default 0%Q (row_QTDE r).

(** The rows of one lot id, in input order. *)
Definition linhas_do_lote (id : string) (df : list LineItem) : list LineItem :=
  filter (fun r => row_LOTE r = id) df.

(** Number of lots of [l] whose setup key differs from that of the lot
    before it, the first lot being compared with the key [s]. *)
Fixpoint mudancas (s : string) (l : list Lote) : nat :=
  match l with
  | [] => 0
  | x :: l' =>
      if decide (SETUP x = s) then mudancas s l'
      else S (mudancas (SETUP x) l')
  end.

(** A descriptor from which no dimension is read. *)
Definition nao_parseia (r : LineItem) : Prop :=
  parse_dimensoes (row_PRODUTO r) = (None, None).

(** ** The descriptor parser on any text

    A [str] is a sequence of code points.  Which code points are decimal
    digits (and of what value), which are white space, and what
    [str.upper] makes of a character are tables of the interpreter's
    Unicode database; the number of digits [int] accepts is a setting of
    the interpreter.  They are parameters of this reading of the
    parser, known through what holds of every interpreter: the tables
    on ASCII, that no digit is white space, and that the limit on
    digits is 0 (none) or at least 640. *)

Module Unicode.

(** The code points of a text written in ASCII. *)
Definition codigos (s : string) : list N := map N_of_ascii (chars s).

Definition decimal_ascii (c : N) : option Z :=
  if ((48 <=? c) && (c <=? 57))%N then Some (Z.of_N c - 48) else None.

Definition isspace_ascii (c : N) : bool :=
  (((9 <=? c) && (c <=? 13)) || ((28 <=? c) && (c <=? 32)))%N.

Definition toupper_ascii (c : N) : N :=
  if ((97 <=? c) && (c <=? 122))%N then (c - 32)%N else c.

Class Tabelas : Type := {
  (** the value of a decimal digit (category Nd), [None] for any other
      character *)
  decimal : N -> option Z;
  (** white space *)
  isspace : N -> bool;
  (** the upper case of one character, which can be several characters *)
  toupper : N -> list N;
  (** [sys.get_int_max_str_digits()] *)
  int_max_str_digits : nat;
  decimal_de_ascii : forall c, (c < 128)%N -> decimal c = decimal_ascii c;
  isspace_de_ascii : forall c, (c < 128)%N -> isspace c = isspace_ascii c;
  toupper_de_ascii : forall c, (c < 128)%N -> toupper c = [toupper_ascii c];
  decimal_nao_isspace : forall c v, decimal c = Some v -> isspace c = false;
  int_max_str_digits_faixa :
    int_max_str_digits = 0%nat \/ (640 <= int_max_str_digits)%nat
}.

(** The argument of [parse_dimensoes]. *)
Inductive descricao : Type :=
| Texto (s : list N)
| NaoTexto.

Section Parser.
Context `{Tabelas}.

(** [\d] *)
Definition digito (c : N) : bool :=
  match decimal c with
  | Some _ => true
  | None => false
  end.

(** [\s] *)
Definition espaco (c : N) : bool := isspace c.

(** [str.upper] *)
Definition upper (s : list N) : list N := flat_map toupper s.

Fixpoint startswith (p s : list N) : bool :=
  match p, s with
  | [], _ => true
  | _ :: _, [] => false
  | a :: p', b :: s' => N.eqb a b && startswith p' s'
  end.

(** [sub in s] *)
Fixpoint contem (sub s : list N) : bool :=
  startswith sub s ||
  match s with
  | [] => false
  | _ :: s' => contem sub s'
  end.

(** [s.replace(a, b)] for one-character [a] and [b]. *)
Definition replace (a b : N) (s : list N) : list N :=
  map (fun c => if N.eqb c a then b else c) s.

Definition valor_digito (c : N) : Z := default 0 (decimal c).

Definition valor_digitos (s : list N) : Z :=
  fold_left (fun acc c => 10 * acc + valor_digito c) s 0.

Definition so_digitos (s : list N) : bool :=
  match s with
  | [] => false
  | _ => forallb digito s
  end.

(** More digits than [int] accepts. *)
Definition digitos_demais (s : list N) : bool :=
  ((0 <? int_max_str_digits) && (int_max_str_digits <? length s))%nat.

(** [int(s)] on a run of digits; [None] is the [ValueError] raised for
    any other text and for a run longer than the limit. *)
Definition int_str (s : list N) : option Z :=
  if so_digitos s && negb (digitos_demais s)
  then Some (valor_digitos s) else None.

Fixpoint ate_ponto (s : list N) : list N * option (list N) :=
  match s with
  | [] => ([], None)
  | c :: s' =>
      if N.eqb c 46 then ([], Some s')
      else let '(i, f) := ate_ponto s' in (c :: i, f)
  end.

(** [float(s)] on [digits] or [digits.digits]: the double nearest to
    the decimal; [None] is the [ValueError] raised for any other text. *)
Definition float_str (s : list N) : option Q :=
  match ate_ponto s with
  | (i, None) =>
      if so_digitos i then Some (double (valor_digitos i # 1)) else None
  | (i, Some f) =>
      if so_digitos i && so_digitos f then
        let escala := Pos.pow 10 (Pos.of_nat (length f)) in
        Some (double ((valor_digitos i * Zpos escala + valor_digitos f) # escala))
      else None
  end.

(** [.] is 46 and [,] is 44. *)
Definition ponto_ou_virgula (c : N) : bool := N.eqb c 46 || N.eqb c 44.

(** [X] is 88. *)
Definition letra_X (c : N) : bool := N.eqb c 88.

(** [r'(\d+[\.,]\d+|\d+)\s*X\s*(\d+)'] *)
Definition padrao : regex N :=
  Seq (Grupo 1 (Alt (Seq (Mais digito) (Seq (Classe ponto_ou_virgula) (Mais digito)))
                    (Mais digito)))
      (Seq (Estrela espaco)
           (Seq (Classe letra_X)
                (Seq (Estrela espaco)
                     (Grupo 2 (Mais digito))))).

Definition marca_rebaixado : list N := codigos "REBAIXAD".

Definition parse_dimensoes (descricao_produto : descricao)
    : option Q * option Z :=
  match descricao_produto with
  | NaoTexto => (None, None)
  | Texto s =>
      if contem marca_rebaixado (upper s) then (None, None)
      else
        match re_search padrao s with
        | Some m =>
            match m !! 1%nat, m !! 2%nat with
            | Some g1, Some g2 =>
                match float_str (replace 44 46 g1), int_str g2 with
                | Some espessura, Some largura => (Some espessura, Some largura)
                | _, _ => (None, None)
                end
            | _, _ => (None, None)
            end
        | None => (None, None)
        end
  end.

(** *** The pattern <thickness>X<width>, in words *)

(** A non-empty run of decimal digits. *)
Definition digitos (l : list N) : Prop := l <> [] /\ todos digito l.

(** A thickness text and its decimal value: an integer, or an integer
    part, a point or a comma, and a fractional part. *)
Inductive texto_decimal : list N -> Q -> Prop :=
| td_inteiro (i : list N) :
    digitos i -> texto_decimal i (valor_digitos i # 1)
| td_fracao (i : list N) (c : N) (f : list N) :
    digitos i -> ponto_ou_virgula c = true -> digitos f ->
    texto_decimal (i ++ c :: f)
      ((valor_digitos i * Zpos (Pos.pow 10 (Pos.of_nat (length f)))
        + valor_digitos f) # Pos.pow 10 (Pos.of_nat (length f))).

(** [s] is a thickness text [t], white space, the letter X, white
    space, a width [w] and whatever follows, [resto]. *)
Definition ocorrencia (t w resto s : list N) : Prop :=
  exists e1 e2,
    s = t ++ e1 ++ 88%N :: e2 ++ w ++ resto
    /\ todos espaco e1 /\ todos espaco e2 /\ digitos w.

Definition padrao_no_inicio (s : list N) : Prop :=
  exists t v w resto, texto_decimal t v /\ ocorrencia t w resto s.

(** The pattern occurs in [s] after [pre], with the whole number as its
    width, and nowhere before. *)
Definition primeira_ocorrencia (pre t w resto s : list N) (v : Q) : Prop :=
  exists m,
    s = pre ++ m
    /\ texto_decimal t v /\ ocorrencia t w resto m
    /\ nao_comeca digito resto
    /\ forall i, (i < length pre)%nat -> ~ padrao_no_inicio (drop i s).

(** The text in upper case contains the reduced-product marker. *)
Definition com_marca (s : list N) : Prop :=
  exists pre post, upper s = pre ++ marca_rebaixado ++ post.

End Parser.

(** An excerpt of the tables: ASCII, the Arabic-Indic digits, the white
    space of Latin-1 and of the general punctuation block, and two
    letters whose upper case is ASCII, the dotless i and the sharp s. *)
Definition decimal_exemplo (c : N) : option Z :=
  if ((48 <=? c) && (c <=? 57))%N then Some (Z.of_N c - 48)
  else if ((1632 <=? c) && (c <=? 1641))%N then Some (Z.of_N c - 1632)
  else None.

Definition isspace_exemplo (c : N) : bool :=
  (((9 <=? c) && (c <=? 13)) || ((28 <=? c) && (c <=? 32))
   || (c =? 133) || (c =? 160)
   || ((8192 <=? c) && (c <=? 8202)) || (c =? 8232) || (c =? 8233)
   || (c =? 8239) || (c =? 8287) || (c =? 12288))%N.

Definition toupper_exemplo (c : N) : list N :=
  if ((97 <=? c) && (c <=? 122))%N then [(c - 32)%N]
  else if (c =? 305)%N then [73%N]
  else if (c =? 223)%N then [83%N; 83%N]
  else [c].

End Unicode.

(** * Properties *)

(** ** Urgency classifier *)

Section Urgencia.

Lemma days_de_dias (data_atual n : Z) :
  days (data_atual - (data_atual - n * NS_POR_DIA)) = n.
Proof.
  unfold days.
  replace (data_atual - (data_atual - n * NS_POR_DIA)) with (n * NS_POR_DIA) by ring.
  apply Z.div_mul. unfold NS_POR_DIA. lia.
Qed.

Lemma urgencia_dias (data_atual entrega : Z) :
  let d := days (data_atual - entrega) in
  calcular_urgencia (Some entrega) data_atual =
    if 10 <? d then (1, "1 - URGENTÍSSIMO")
    else if 5 <=? d then (2, "2 - URGENTE")
    else if 0 <=? d then (3, "3 - ATRASADO")
    else if -10 <=? d then (4, "4 - NO TEMPO")
    else (5, "5 - COM FOLGA").
Proof.
  intros d. unfold calcular_urgencia. fold d.
  destruct (Z.ltb_spec 10 d); [done|].
  destruct (Z.leb_spec 5 d), (Z.leb_spec d 10); try lia; simpl; [done|].
  destruct (Z.leb_spec 0 d), (Z.leb_spec d 4); try lia; simpl; [done|].
  destruct (Z.leb_spec (-10) d), (Z.ltb_spec d 0); try lia; simpl; done.
Qed.

(** C2: a missing due date gives tier 5 with the label of its own
    (SEM DATA); otherwise the tier follows the number of days late:
    above 10 tier 1, 5..10 tier 2, 0..4 tier 3, -10..-1 tier 4, below
    -10 tier 5, whatever the reference instant; so 11 days late is
    tier 1, 10 and 5 tier 2, 4 and 0 tier 3, -1 and -10 tier 4 and -11
    tier 5. *)
Theorem calcular_urgencia_faixas (data_atual entrega : Z) :
  let dias_atraso := days (data_atual - entrega) in
  let classe := calcular_urgencia (Some entrega) data_atual in
  calcular_urgencia None data_atual = (5, "5 - COM FOLGA (SEM DATA)")
  /\ "5 - COM FOLGA (SEM DATA)" <> "5 - COM FOLGA"
  /\ (10 < dias_atraso -> classe = (1, "1 - URGENTÍSSIMO"))
  /\ (5 <= dias_atraso <= 10 -> classe = (2, "2 - URGENTE"))
  /\ (0 <= dias_atraso <= 4 -> classe = (3, "3 - ATRASADO"))
  /\ (-10 <= dias_atraso <= -1 -> classe = (4, "4 - NO TEMPO"))
  /\ (dias_atraso < -10 -> classe = (5, "5 - COM FOLGA"))
  /\ (let atraso n := Some (data_atual - n * NS_POR_DIA) in
      (calcular_urgencia (atraso 11) data_atual).1 = 1
      /\ (calcular_urgencia (atraso 10) data_atual).1 = 2
      /\ (calcular_urgencia (atraso 5) data_atual).1 = 2
      /\ (calcular_urgencia (atraso 4) data_atual).1 = 3
      /\ (calcular_urgencia (atraso 0) data_atual).1 = 3
      /\ (calcular_urgencia (atraso (-1)) data_atual).1 = 4
      /\ (calcular_urgencia (atraso (-10)) data_atual).1 = 4
      /\ (calcular_urgencia (atraso (-11)) data_atual).1 = 5).
Proof.
  intros d classe.
  pose proof (urgencia_dias data_atual entrega) as Hc.
  cbv zeta in Hc. fold d in Hc. fold classe in Hc.
  split; [reflexivity|]. split; [discriminate|].
  do 5 (split; [intros H; rewrite Hc;
    repeat match goal with
      | |- context [?a <? ?b] => destruct (Z.ltb_spec a b); try lia
      | |- context [?a <=? ?b] => destruct (Z.leb_spec a b); try lia
      end; reflexivity|]).
  intros atraso. unfold atraso.
  repeat split; rewrite urgencia_dias, days_de_dias; reflexivity.
Qed.

Lemma calcular_urgencia_faixas_witness :
  calcular_urgencia (Some 0) (11 * NS_POR_DIA) = (1, "1 - URGENTÍSSIMO")
  /\ calcular_urgencia (Some 0) (7 * NS_POR_DIA) = (2, "2 - URGENTE")
  /\ calcular_urgencia (Some 0) (3 * NS_POR_DIA + 5) = (3, "3 - ATRASADO")
  /\ calcular_urgencia (Some 1) 0 = (4, "4 - NO TEMPO")
  /\ calcular_urgencia (Some (11 * NS_POR_DIA)) 0 = (5, "5 - COM FOLGA").
Proof.
  split; [|split; [|split; [|split]]].
  - apply (calcular_urgencia_faixas (11 * NS_POR_DIA) 0). vm_compute. reflexivity.
  - apply (calcular_urgencia_faixas (7 * NS_POR_DIA) 0). vm_compute. split; discriminate.
  - apply (calcular_urgencia_faixas (3 * NS_POR_DIA + 5) 0). vm_compute. split; discriminate.
  - apply (calcular_urgencia_faixas 0 1). vm_compute. split; discriminate.
  - apply (calcular_urgencia_faixas 0 (11 * NS_POR_DIA)). vm_compute. reflexivity.
Defined.

End Urgencia.

(** ** Setup classifier *)

Section Setup.

Lemma append_inj_r (s1 s2 t : string) : s1 +:+ t = s2 +:+ t -> s1 = s2.
Proof.
  intros H.
  apply (f_equal list_ascii_of_string) in H.
  assert (Happ : forall a b, list_ascii_of_string (a +:+ b)
                 = list_ascii_of_string a ++ list_ascii_of_string b).
  { induction a as [|c a IH]; intros b; simpl; [done|]. by rewrite IH. }
  rewrite !Happ in H. apply app_inv_tail in H.
  rewrite <- (string_of_list_ascii_of_string s1),
          <- (string_of_list_ascii_of_string s2).
  by rewrite H.
Qed.

Lemma str_int_inj (a b : Z) : str_int a = str_int b -> a = b.
Proof.
  unfold str_int. intros H.
  assert (Hnn : forall z, Z.to_int z <> Decimal.Pos Decimal.Nil
                          /\ Z.to_int z <> Decimal.Neg Decimal.Nil).
  { intros [|p|p]; simpl; split; try discriminate;
      intros E; injection E as E;
      exact (DecimalPos.Unsigned.to_uint_nonnil p E). }
  assert (E : Some (Z.to_int a) = Some (Z.to_int b)).
  { rewrite <- (NilZero.isi (Z.to_int a)), <- (NilZero.isi (Z.to_int b));
      try apply Hnn. by rewrite H. }
  injection E as E.
  rewrite <- (DecimalZ.of_to a),
          <- (DecimalZ.of_to b).
  by rewrite E.
Qed.

Lemma plaina_casos (e : Q) :
  ((e <= 4.75)%Q /\ plaina e = "PLAINA_FINA")
  \/ ((4.75 < e)%Q /\ plaina e = "PLAINA_GROSSA").
Proof.
  unfold plaina. destruct (Qle_bool e 4.75) eqn:E.
  - left. split; [|done]. by apply Qle_bool_iff.
  - right. split; [|done]. apply Qnot_le_lt. intros H.
    apply Qle_bool_iff in H. congruence.
Qed.

(** C7: a missing thickness or width gives the one undefined-setup key;
    otherwise the key is the planer category, fine up to and including
    4.75 and coarse above, joined to the width, so that two keys are
    equal exactly when category and width both are. *)
Theorem determinar_setup_chave :
  (forall e l, e = None \/ l = None ->
               determinar_setup e l = "SETUP_INDEFINIDO")
  /\ (forall e l, determinar_setup (Some e) (Some l)
                  = plaina e +:+ "_" +:+ str_int l +:+ "mm")
  /\ (forall e, (e <= 4.75)%Q -> plaina e = "PLAINA_FINA")
  /\ (forall e, (4.75 < e)%Q -> plaina e = "PLAINA_GROSSA")
  /\ (forall e l e' l',
        determinar_setup (Some e) (Some l) = determinar_setup (Some e') (Some l')
        <-> plaina e = plaina e' /\ l = l')
  /\ (forall e l, determinar_setup (Some e) (Some l) <> "SETUP_INDEFINIDO")
  /\ determinar_setup (Some 4.75%Q) (Some 1250) = "PLAINA_FINA_1250mm"
  /\ determinar_setup (Some 4.76%Q) (Some 1250) = "PLAINA_GROSSA_1250mm"
  /\ determinar_setup None (Some 1250) = "SETUP_INDEFINIDO".
Proof.
  split; [|split; [|split; [|split; [|split; [|split]]]]].
  - intros e l [-> | ->]; [done|]. by destruct e.
  - done.
  - intros e H. destruct (plaina_casos e) as [[_ E]|[H' _]]; [done|].
    exfalso. apply (Qlt_not_le _ _ H'), H.
  - intros e H. destruct (plaina_casos e) as [[H' _]|[_ E]]; [|done].
    exfalso. apply (Qlt_not_le _ _ H), H'.
  - intros e l e' l'. split.
    + unfold determinar_setup.
      destruct (plaina_casos e) as [[_ ->]|[_ ->]],
               (plaina_casos e') as [[_ ->]|[_ ->]];
        simpl; intros H; try discriminate; split; try done;
        injection H as H;
        change (str_int l +:+ "mm" = str_int l' +:+ "mm") in H;
        by apply append_inj_r, str_int_inj in H.
    + intros [H ->]. unfold determinar_setup. by rewrite H.
  - intros e l. unfold determinar_setup.
    destruct (plaina_casos e) as [[_ ->]|[_ ->]]; discriminate.
  - split; [|split]; vm_compute; reflexivity.
Qed.

Lemma determinar_setup_chave_witness :
  determinar_setup None (Some 1250) = "SETUP_INDEFINIDO"
  /\ plaina 4.75 = "PLAINA_FINA"
  /\ plaina 4.76 = "PLAINA_GROSSA"
  /\ determinar_setup (Some 3%Q) (Some 1000) = determinar_setup (Some 4.5%Q) (Some 1000).
Proof.
  destruct determinar_setup_chave as (H1 & _ & H3 & H4 & H5 & _).
  split; [|split; [|split]].
  - apply H1. by left.
  - apply H3. vm_compute. discriminate.
  - apply H4. vm_compute. reflexivity.
  - apply H5. split; vm_compute; reflexivity.
Defined.

End Setup.

(** ** Three-way comparisons and the stable sort *)

Section Comparadores.

Lemma ascii_compare_N (a b : ascii) :
  Ascii.compare a b = N.compare (N_of_ascii a) (N_of_ascii b).
Proof. reflexivity. Qed.

Lemma string_compare_lt_trans (a b c : string) :
  String.compare a b = Lt -> String.compare b c = Lt -> String.compare a c = Lt.
Proof.
  revert b c. induction a as [|x a IH]; intros [|y b] [|z c]; simpl; try done.
  rewrite !ascii_compare_N.
  destruct (N.compare_spec (N_of_ascii x) (N_of_ascii y)) as [E1|L1|G1]; try done;
    destruct (N.compare_spec (N_of_ascii y) (N_of_ascii z)) as [E2|L2|G2]; try done;
    intros H1 H2.
  - rewrite E1, E2, N.compare_refl. eauto.
  - by rewrite E1, (proj2 (N.compare_lt_iff _ _) L2).
  - by rewrite <- E2, (proj2 (N.compare_lt_iff _ _) L1).
  - assert (L : (N_of_ascii x < N_of_ascii z)%N) by lia.
    by rewrite (proj2 (N.compare_lt_iff _ _) L).
Qed.

#[global] Instance Comparador_string : Comparador String.compare.
Proof.
  split.
  - intros a b. apply String.compare_antisym.
  - intros a b c H. apply String.compare_eq_iff in H. by subst.
  - apply string_compare_lt_trans.
Qed.

#[global] Instance Comparador_Z : Comparador Z.compare.
Proof.
  split.
  - intros a b. apply Z.compare_antisym.
  - intros a b c H. apply Z.compare_eq in H. by subst.
  - intros a b c. rewrite !Z.compare_lt_iff. lia.
Qed.

#[global] Instance Comparador_Q : Comparador Qcompare.
Proof.
  split.
  - intros a b. symmetry. apply Qcompare_antisym.
  - intros a b c H. apply Qeq_alt in H. by rewrite H.
  - intros a b c. rewrite <- !Qlt_alt. apply Qlt_trans.
Qed.

#[global] Instance Comparador_data : Comparador compara_data.
Proof.
  split.
  - intros [a|] [b|]; simpl; try done. apply Z.compare_antisym.
  - intros [a|] [b|] [c|]; simpl; try done. intros H.
    apply Z.compare_eq in H. by subst.
  - intros [a|] [b|] [c|]; simpl; try done. apply (cmp_lt_trans (cmp:=Z.compare)).
Qed.

Lemma Comparador_campo {A B : Type} (f : A -> B) (cmp : B -> B -> comparison) :
  Comparador cmp -> Comparador (fun a b => cmp (f a) (f b)).
Proof.
  intros [H1 H2 H3]. split; eauto.
Qed.

#[global] Instance Comparador_col (c : Coluna) : Comparador (compara_col c).
Proof.
  destruct c; unfold compara_col.
  - apply (Comparador_campo LOTE), _.
  - apply (Comparador_campo PESO_TOTAL), _.
  - apply (Comparador_campo DATA_ENTREGA compara_data), _.
  - apply (Comparador_campo SETUP), _.
  - apply (Comparador_campo URGENCIA_NIVEL), _.
  - apply (Comparador_campo URGENCIA_NOME), _.
  - apply (Comparador_campo ESPESSURA), _.
Qed.

#[global] Instance Comparador_por (by_ : list Coluna) : Comparador (compara_por by_).
Proof.
  induction by_ as [|c by_ IH]; split; simpl; try done.
  - intros a b. rewrite (cmp_antisym (cmp:=compara_col c) a b).
    destruct (compara_col c a b); simpl; try done. apply cmp_antisym.
  - intros a b d.
    destruct (compara_col c a b) eqn:E; try done. intros H.
    rewrite (cmp_eq_compat (cmp:=compara_col c) a b d E).
    destruct (compara_col c b d); try done. by apply cmp_eq_compat.
  - intros a b d.
    destruct (compara_col c a b) eqn:E1; try done;
      destruct (compara_col c b d) eqn:E2; try done; intros H1 H2.
    + rewrite (cmp_eq_compat (cmp:=compara_col c) a b d E1), E2.
      eapply cmp_lt_trans; eauto.
    + by rewrite (cmp_eq_compat (cmp:=compara_col c) a b d E1), E2.
    + assert (compara_col c a d = Lt) as ->; [|done].
      rewrite (cmp_antisym (cmp:=compara_col c) d a).
      rewrite (cmp_eq_compat (cmp:=compara_col c) d b a).
      * by rewrite (cmp_antisym (cmp:=compara_col c) a b), E1.
      * by rewrite (cmp_antisym (cmp:=compara_col c) b d), E2.
    + by rewrite (cmp_lt_trans (cmp:=compara_col c) a b d E1 E2).
Qed.

End Comparadores.

Section OrdenarProps.
Context {A : Type} (cmp : A -> A -> comparison) `{!Comparador cmp}.

Local Abbreviation antisym := (cmp_antisym (cmp:=cmp)).
Local Abbreviation eq_compat := (cmp_eq_compat (cmp:=cmp)).
Local Abbreviation lt_trans := (cmp_lt_trans (cmp:=cmp)).

Lemma cmp_refl (a : A) : cmp a a = Eq.
Proof.
  pose proof (antisym a a) as H.
  destruct (cmp a a); simpl in H; congruence.
Qed.

Lemma cmp_eq_sym (a b : A) : cmp a b = Eq -> cmp b a = Eq.
Proof. intros H. by rewrite (antisym a b), H. Qed.

Lemma nao_depois_total (a b : A) : cmp a b = Gt -> nao_depois cmp b a.
Proof. unfold nao_depois. intros H. by rewrite (antisym a b), H. Qed.

Lemma nao_depois_trans (a b c : A) :
  nao_depois cmp a b -> nao_depois cmp b c -> nao_depois cmp a c.
Proof.
  unfold nao_depois.
  destruct (cmp a b) eqn:E1; [| |done]; intros _.
  - by rewrite (eq_compat a b c E1).
  - destruct (cmp b c) eqn:E2; [| |done]; intros _.
    + rewrite (antisym c a), (eq_compat c b a (cmp_eq_sym _ _ E2)).
      by rewrite (antisym a b), E1.
    + by rewrite (lt_trans a b c E1 E2).
Qed.

Lemma nao_depois_antisym (a b : A) :
  nao_depois cmp a b -> nao_depois cmp b a -> cmp a b = Eq.
Proof.
  unfold nao_depois. rewrite (antisym a b).
  destruct (cmp a b); simpl; congruence.
Qed.

Lemma inserir_perm (x : A) (l : list A) : Permutation (inserir cmp x l) (x :: l).
Proof.
  induction l as [|y l IH]; simpl; [done|].
  destruct (cmp x y); try done.
  rewrite IH. apply perm_swap.
Qed.

Lemma ordenar_perm (l : list A) : Permutation (ordenar cmp l) l.
Proof.
  induction l as [|x l IH]; simpl; [done|].
  by rewrite inserir_perm, IH.
Qed.

Lemma inserir_sorted (x : A) (l : list A) :
  StronglySorted (nao_depois cmp) l ->
  StronglySorted (nao_depois cmp) (inserir cmp x l).
Proof.
  induction l as [|y l IH]; simpl; intros Hs.
  - by repeat constructor.
  - inversion Hs as [|? ? Hs' Hall]; subst.
    assert (Hle : nao_depois cmp x y ->
                  StronglySorted (nao_depois cmp) (x :: y :: l)).
    { intros Hxy. constructor; [done|]. constructor; [done|].
      eapply Forall_impl; [exact Hall|].
      intros z Hz. by eapply nao_depois_trans. }
    destruct (cmp x y) eqn:E; try (apply Hle; unfold nao_depois; congruence).
    constructor; [by apply IH|].
    eapply Permutation_Forall; [symmetry; apply inserir_perm|].
    constructor; [by apply nao_depois_total|done].
Qed.

Lemma ordenar_sorted (l : list A) : StronglySorted (nao_depois cmp) (ordenar cmp l).
Proof.
  induction l as [|x l IH]; simpl; [constructor|]. by apply inserir_sorted.
Qed.

Lemma mesma_chave_inserir (a x : A) (l : list A) :
  mesma_chave cmp a (inserir cmp x l) = mesma_chave cmp a (x :: l).
Proof.
  unfold mesma_chave.
  induction l as [|y l IH]; [done|].
  simpl. destruct (cmp x y) eqn:E; try done.
  simpl. rewrite IH. simpl.
  destruct (cmp a x) eqn:Ex; try done.
  destruct (cmp a y) eqn:Ey; try done.
  rewrite (eq_compat a x y Ex) in Ey. congruence.
Qed.

Lemma ordenar_estavel (a : A) (l : list A) :
  mesma_chave cmp a (ordenar cmp l) = mesma_chave cmp a l.
Proof.
  induction l as [|x l IH]; [done|].
  simpl. rewrite mesma_chave_inserir.
  unfold mesma_chave in *. simpl. by rewrite IH.
Qed.

Lemma mesma_chave_In (a x : A) (l : list A) :
  In x (mesma_chave cmp a l) <-> In x l /\ cmp a x = Eq.
Proof.
  unfold mesma_chave. rewrite filter_In.
  destruct (cmp a x); intuition congruence.
Qed.

Lemma mesma_chave_nil (l : list A) :
  (forall a, mesma_chave cmp a l = []) -> l = [].
Proof.
  destruct l as [|x l]; [done|]. intros H. specialize (H x).
  simpl in H. by rewrite cmp_refl in H.
Qed.

(** A sorted list is determined by the order in which it lists the
    elements of each key: all stable sorts agree. *)
Lemma ordenacao_estavel_unica (l1 l2 : list A) :
  StronglySorted (nao_depois cmp) l1 ->
  StronglySorted (nao_depois cmp) l2 ->
  (forall a, mesma_chave cmp a l1 = mesma_chave cmp a l2) ->
  l1 = l2.
Proof.
  revert l2. induction l1 as [|x l1 IH]; intros l2 H1 H2 Hk.
  - symmetry. apply mesma_chave_nil. intros a. by rewrite <- Hk.
  - destruct l2 as [|y l2].
    { apply mesma_chave_nil. intros a. by rewrite Hk. }
    inversion H1 as [|? ? H1' Hx]; inversion H2 as [|? ? H2' Hy]; subst.
    assert (Hxy : nao_depois cmp x y).
    { assert (Hin : In y (x :: l1)).
      { apply (mesma_chave_In y). rewrite Hk. apply mesma_chave_In.
        split; [by left|apply cmp_refl]. }
      destruct Hin as [->|Hin]; [unfold nao_depois; by rewrite cmp_refl|].
      rewrite Forall_forall in Hx. apply Hx. by apply list_elem_of_In. }
    assert (Hyx : nao_depois cmp y x).
    { assert (Hin : In x (y :: l2)).
      { apply (mesma_chave_In x). rewrite <- Hk. apply mesma_chave_In.
        split; [by left|apply cmp_refl]. }
      destruct Hin as [->|Hin]; [unfold nao_depois; by rewrite cmp_refl|].
      rewrite Forall_forall in Hy. apply Hy. by apply list_elem_of_In. }
    pose proof (nao_depois_antisym x y Hxy Hyx) as Exy.
    assert (x = y) as <-.
    { pose proof (Hk x) as Hkx. simpl in Hkx.
      rewrite cmp_refl, Exy in Hkx. congruence. }
    f_equal. apply IH; try done.
    intros a. specialize (Hk a). simpl in Hk.
    destruct (cmp a x); try done. congruence.
Qed.

End OrdenarProps.

(** ** Sequencer: ordering *)

Section Sequenciador.

Lemma sort_values_Ok (df df' : DataFrame) (by_ : list Coluna) :
  sort_values df by_ = Ok df' ->
  records df' = ordenar (compara_por by_) (records df).
Proof.
  unfold sort_values. destruct (List.find _ by_); [done|].
  intros [= <-]. done.
Qed.

Lemma sort_values_colunas (df : DataFrame) (by_ : list Coluna) :
  (forall c, c ∈ by_ -> c ∈ columns df) ->
  sort_values df by_ =
    Ok {| columns := columns df;
          records := ordenar (compara_por by_) (records df) |}.
Proof.
  intros H. unfold sort_values.
  destruct (List.find _ by_) as [c|] eqn:E; [|done].
  apply find_some in E as [Hin Hc].
  apply list_elem_of_In, H in Hin.
  by rewrite bool_decide_eq_true_2 in Hc.
Qed.

Lemma otimizar_sequencia_Ok (df : DataFrame) (p1 p2 p3 : Coluna)
    (seq : list Lote) (batches : list Batch) :
  otimizar_sequencia df (p1, p2, p3) = Ok (seq, batches) ->
  seq = ordenar (compara_por (chaves p1 p2 p3)) (records df)
  /\ batches = match seq with
               | [] => []
               | primeiro :: _ => laco_batches seq ([], 0%Q, SETUP primeiro)
               end.
Proof.
  unfold otimizar_sequencia.
  destruct (sort_values df _) as [df'|e] eqn:E; [|done].
  apply sort_values_Ok in E. fold (chaves p1 p2 p3) in E. rewrite <- E.
  destruct (records df'); intros [= <- <-]; done.
Qed.

Lemma otimizar_sequencia_colunas (df : DataFrame) (p1 p2 p3 : Coluna) :
  (forall c, c ∈ chaves p1 p2 p3 -> c ∈ columns df) ->
  exists seq batches, otimizar_sequencia df (p1, p2, p3) = Ok (seq, batches).
Proof.
  intros H. unfold otimizar_sequencia.
  fold (chaves p1 p2 p3). rewrite (sort_values_colunas _ _ H). simpl.
  destruct (ordenar _ _); eauto.
Qed.

(** C4: the sequence is the stable sort of the lots on the keys
    (priority 1, priority 2, priority 3, due date), ascending, a
    missing date after every date: it is in ascending lexicographic
    order, lists the lots of equal keys in their input order, and is
    the only list of the input lots that does both; the batch list is
    computed from it, so sequence and batches depend on nothing but
    the priorities and the input. *)
Theorem otimizar_sequencia_ordena (df : DataFrame) (p1 p2 p3 : Coluna) :
  let cmp := compara_por [p1; p2; p3; C_DATA_ENTREGA] in
  ((forall c, c ∈ [p1; p2; p3; C_DATA_ENTREGA] -> c ∈ columns df) ->
   exists seq batches, otimizar_sequencia df (p1, p2, p3) = Ok (seq, batches))
  /\ (forall a b,
        compara_col C_DATA_ENTREGA a b =
          match DATA_ENTREGA a, DATA_ENTREGA b with
          | Some x, Some y => Z.compare x y
          | Some _, None => Lt
          | None, Some _ => Gt
          | None, None => Eq
          end)
  /\ forall seq batches,
      otimizar_sequencia df (p1, p2, p3) = Ok (seq, batches) ->
      StronglySorted (nao_depois cmp) seq
      /\ (forall a, mesma_chave cmp a seq = mesma_chave cmp a (records df))
      /\ Permutation seq (records df)
      /\ (forall seq',
            StronglySorted (nao_depois cmp) seq' ->
            (forall a, mesma_chave cmp a seq' = mesma_chave cmp a (records df)) ->
            seq' = seq)
      /\ (forall seq2 batches2,
            otimizar_sequencia df (p1, p2, p3) = Ok (seq2, batches2) ->
            seq2 = seq /\ batches2 = batches)
      /\ batches = match seq with
                   | [] => []
                   | primeiro :: _ => laco_batches seq ([], 0%Q, SETUP primeiro)
                   end.
Proof.
  intros cmp.
  split; [apply otimizar_sequencia_colunas|]. split; [done|].
  intros seq batches H.
  pose proof (otimizar_sequencia_Ok _ _ _ _ _ _ H) as [Hs Hb].
  unfold chaves in Hs. fold cmp in Hs.
  split; [rewrite Hs; apply ordenar_sorted, _|].
  split; [intros a; rewrite Hs; apply ordenar_estavel, _|].
  split; [rewrite Hs; apply ordenar_perm|].
  split.
  { intros seq' Hsort Hk. apply (ordenacao_estavel_unica cmp); [done| |].
    - rewrite Hs. apply ordenar_sorted, _.
    - intros a. rewrite Hk, Hs. symmetry. apply ordenar_estavel, _. }
  split; [|done].
  intros seq2 batches2 H2. rewrite H in H2. by injection H2 as <- <-.
Qed.

Lemma otimizar_sequencia_ordena_witness :
  (exists seq batches,
      otimizar_sequencia (pd_DataFrame (rev lotes_exemplo)) prioridades_exemplo
      = Ok (seq, batches))
  /\ StronglySorted
       (nao_depois (compara_por [C_URGENCIA_NIVEL; C_SETUP; C_ESPESSURA; C_DATA_ENTREGA]))
       [lote_exemplo "L2" "A" 40 1; lote_exemplo "L1" "A" 40 1;
        lote_exemplo "L5" "B" 70 2; lote_exemplo "L4" "B" 30 2;
        lote_exemplo "L3" "B" 30 2; lote_exemplo "L6" "A" 10 3].
Proof.
  pose proof (otimizar_sequencia_ordena (pd_DataFrame (rev lotes_exemplo))
                C_URGENCIA_NIVEL C_SETUP C_ESPESSURA) as (H1 & _ & H2).
  split.
  - apply H1. intros c Hc. apply list_elem_of_In in Hc.
    apply list_elem_of_In. simpl in *. intuition.
  - eapply H2. vm_compute. reflexivity.
Defined.

End Sequenciador.

(** ** Sequencer: batches *)

Section Batches.

Lemma laco_batches_trechos (l : list Lote) (bs : list Batch)
    (cur : list Lote) (s : string) :
  laco_batches l (bs, soma (map PESO_TOTAL cur), s)
  = bs ++ map batch_do_trecho (trechos s cur l).
Proof.
  revert bs cur s. induction l as [|x l IH]; intros bs cur s; [done|].
  unfold laco_batches in *. simpl.
  destruct (decide (SETUP x = s)) as [E|E].
  - rewrite bool_decide_eq_false_2 by (intros ?; done).
    specialize (IH bs (cur ++ [x]) s).
    unfold soma in *. rewrite map_app, fold_left_app in IH. exact IH.
  - rewrite bool_decide_eq_true_2 by done.
    specialize (IH (bs ++ [fechar_batch s (soma (map PESO_TOTAL cur))]) [x] (SETUP x)).
    simpl. rewrite <- app_assoc in IH. exact IH.
Qed.

Lemma trechos_concat (s : string) (cur l : list Lote) :
  concat (map snd (trechos s cur l)) = cur ++ l.
Proof.
  revert s cur. induction l as [|x l IH]; intros s cur; simpl.
  - by rewrite app_nil_r.
  - destruct (decide _); simpl; rewrite IH; [by rewrite <- app_assoc|done].
Qed.

Lemma trechos_uniformes (s : string) (cur l : list Lote) :
  Forall (fun y => SETUP y = s) cur ->
  Forall (fun t => Forall (fun y => SETUP y = t.1) t.2) (trechos s cur l).
Proof.
  revert s cur. induction l as [|x l IH]; intros s cur Hc; simpl.
  - by constructor.
  - destruct (decide _) as [E|E].
    + apply IH. apply Forall_app. split; [done|]. by constructor.
    + constructor; [done|]. apply IH. by constructor.
Qed.

Lemma trechos_nao_vazios (s : string) (cur l : list Lote) :
  cur <> [] -> Forall (fun t => t.2 <> []) (trechos s cur l).
Proof.
  revert s cur. induction l as [|x l IH]; intros s cur Hc; simpl.
  - by constructor.
  - destruct (decide _) as [E|E].
    + apply IH. by destruct cur.
    + constructor; [done|]. by apply IH.
Qed.

Lemma trechos_cabeca (s : string) (cur l : list Lote) :
  exists t, trechos s cur l = (s, t) :: tail (trechos s cur l).
Proof.
  revert cur. induction l as [|x l IH]; intros cur; simpl; [eauto|].
  destruct (decide _); [apply IH|eauto].
Qed.




End Batches.

Section BatchesTeoremas.

Lemma map_fmap {A B : Type} (f : A -> B) (l : list A) : map f l = f <$> l.
Proof. induction l as [|a l IH]; [done|]. simpl. by rewrite IH. Qed.




End BatchesTeoremas.

(** ** Weights of the batches *)

Section PesosNumericos.
Import Numerico.
Context {W : Type} `{Numero W}.

Lemma sequencia_numerica_Ok (df : DataFrame W) (p1 p2 p3 : Coluna)
    (seq : list (Lote W)) (batches : list (Batch W)) :
  otimizar_sequencia df (p1, p2, p3) = Ok (seq, batches) ->
  seq = ordenar (compara_por [p1; p2; p3; C_DATA_ENTREGA]) (records df)
  /\ batches = match seq with
               | [] => []
               | x :: _ => laco_batches seq ([], zero, SETUP x)
               end.
Proof.
  unfold otimizar_sequencia, sort_values.
  destruct (List.find _ _); [done|]. simpl.
  destruct (ordenar _ _) as [|x l] eqn:E; intros [= <- <-]; by rewrite ?E.
Qed.

Lemma batches_numericos_trechos (l : list (Lote W)) (bs : list (Batch W))
    (cur : list (Lote W)) (s : string) :
  laco_batches l (bs, acumula (map PESO_TOTAL cur), s)
  = bs ++ map (fun t => fechar_batch t.1 (acumula (map PESO_TOTAL t.2)))
              (trechos s cur l).
Proof.
  revert bs cur s. induction l as [|x l IH]; intros bs cur s; [done|].
  unfold laco_batches in *. simpl.
  destruct (decide (SETUP x = s)) as [E|E].
  - rewrite bool_decide_eq_false_2 by (intros ?; done).
    specialize (IH bs (cur ++ [x]) s).
    unfold acumula in *. rewrite map_app, fold_left_app in IH. exact IH.
  - rewrite bool_decide_eq_true_2 by done.
    specialize (IH (bs ++ [fechar_batch s (acumula (map PESO_TOTAL cur))])
                  [x] (SETUP x)).
    simpl. rewrite <- app_assoc in IH. exact IH.
Qed.

Lemma trechos_numericos_concat (s : string) (cur l : list (Lote W)) :
  concat (map snd (trechos s cur l)) = cur ++ l.
Proof.
  revert s cur. induction l as [|x l IH]; intros s cur; simpl.
  - by rewrite app_nil_r.
  - destruct (decide _); simpl; rewrite IH; [by rewrite <- app_assoc|done].
Qed.

Lemma trechos_numericos_nao_vazios (s : string) (cur l : list (Lote W)) :
  cur <> [] -> Forall (fun t => t.2 <> []) (trechos s cur l).
Proof.
  revert s cur. induction l as [|x l IH]; intros s cur Hc; simpl.
  - by constructor.
  - destruct (decide _) as [E|E].
    + apply IH. by destruct cur.
    + constructor; [done|]. by apply IH.
Qed.

(** The batches of a sequence that is not empty are its runs, each with
    the left-to-right sum of its lots. *)
Lemma batches_da_sequencia (x : Lote W) (l : list (Lote W)) :
  exists T : list (list (Lote W)),
    concat T = x :: l
    /\ Forall2 (fun b tr => tr <> [] /\ peso b = acumula (map PESO_TOTAL tr))
               (laco_batches (x :: l) ([], zero, SETUP x)) T.
Proof.
  change zero with (acumula (map PESO_TOTAL (@nil (Lote W)))).
  rewrite batches_numericos_trechos. simpl. rewrite decide_True by done.
  exists (map snd (trechos (SETUP x) [x] l)).
  split; [apply trechos_numericos_concat|].
  pose proof (trechos_numericos_nao_vazios (SETUP x) [x] l ltac:(done)) as Hne.
  induction Hne as [|t T Ht _ IH]; simpl; by constructor.
Qed.

Section Exatos.
Context `{!Exato W}.

Lemma acumula_acc (l : list W) (a : W) :
  fold_left mais l a = mais a (acumula l).
Proof.
  unfold acumula. revert a. induction l as [|x l IH]; intros a; simpl.
  - by rewrite mais_comm, mais_zero.
  - by rewrite (IH (mais a x)), (IH (mais zero x)), mais_zero, mais_assoc.
Qed.

Lemma acumula_cons (x : W) (l : list W) : acumula (x :: l) = mais x (acumula l).
Proof. unfold acumula at 1. simpl. by rewrite acumula_acc, mais_zero. Qed.

Lemma acumula_app (l1 l2 : list W) :
  acumula (l1 ++ l2) = mais (acumula l1) (acumula l2).
Proof.
  induction l1 as [|x l1 IH]; simpl.
  - unfold acumula at 2. simpl. by rewrite mais_zero.
  - by rewrite !acumula_cons, IH, mais_assoc.
Qed.

Lemma acumula_perm (l1 l2 : list W) :
  Permutation l1 l2 -> acumula l1 = acumula l2.
Proof.
  induction 1 as [|x l1 l2 _ IH|x y l|l1 l2 l3 _ IH1 _ IH2].
  - done.
  - by rewrite !acumula_cons, IH.
  - by rewrite !acumula_cons, !mais_assoc, (mais_comm x y).
  - by rewrite IH1.
Qed.

Lemma acumula_concat (bs : list (Batch W)) (T : list (list (Lote W))) :
  Forall2 (fun b tr => tr <> [] /\ peso b = acumula (map PESO_TOTAL tr)) bs T ->
  acumula (map peso bs) = acumula (map PESO_TOTAL (concat T)).
Proof.
  induction 1 as [|b tr bs T [_ Hb] _ IH]; simpl; [done|].
  by rewrite acumula_cons, map_app, acumula_app, IH, Hb.
Qed.

End Exatos.
End PesosNumericos.

#[global] Instance Exato_int : Numerico.Exato Z.
Proof. split; simpl; intros; try lia. reflexivity. Qed.

(** C10, as amended: every lot of the sequence is added into exactly one
    batch, in sequence order, a batch's weight being the left-to-right
    sum of its lots, and for a sequence that is not empty the total
    weight of the metrics table is the [sum] of the batch weights, on
    any numbers.  When the arithmetic is exact (addition associative and
    commutative with 0 neutral, [sum] the left-to-right sum, as on [int]
    weights) that total is the sum of the weights of the sequenced lots
    and of the lots given to the sequencer. *)
Theorem pesos_dos_batches {W : Type} `{Numerico.Numero W}
    (df : Numerico.DataFrame W) (p1 p2 p3 : Coluna)
    (seq : list (Numerico.Lote W)) (batches : list (Numerico.Batch W)) :
  Numerico.otimizar_sequencia df (p1, p2, p3) = Ok (seq, batches) ->
  (exists T : list (list (Numerico.Lote W)),
     concat T = seq
     /\ Forall2 (fun b tr =>
                   tr <> []
                   /\ Numerico.peso b
                      = Numerico.acumula (map Numerico.PESO_TOTAL tr))
                batches T)
  /\ (seq <> [] ->
      exists m, Numerico.calcular_metricas seq batches = Some m
                /\ Numerico.peso_total_processado m
                   = Numerico.soma (map Numerico.peso batches))
  /\ (Numerico.Exato W ->
      Numerico.soma (map Numerico.peso batches)
      = Numerico.soma (map Numerico.PESO_TOTAL seq)
      /\ Numerico.soma (map Numerico.PESO_TOTAL seq)
         = Numerico.soma (map Numerico.PESO_TOTAL (Numerico.records df))
      /\ (seq <> [] ->
          exists m, Numerico.calcular_metricas seq batches = Some m
                    /\ Numerico.peso_total_processado m
                       = Numerico.soma
                           (map Numerico.PESO_TOTAL (Numerico.records df)))).
Proof.
  intros Hok. apply sequencia_numerica_Ok in Hok as [Hs Hb].
  assert (HT : exists T : list (list (Numerico.Lote W)),
             concat T = seq
             /\ Forall2 (fun b tr =>
                           tr <> []
                           /\ Numerico.peso b
                              = Numerico.acumula (map Numerico.PESO_TOTAL tr))
                        batches T).
  { destruct seq as [|x l]; [exists []; by subst batches|].
    subst batches. apply batches_da_sequencia. }
  assert (Hm : seq <> [] ->
               exists m, Numerico.calcular_metricas seq batches = Some m
                         /\ Numerico.peso_total_processado m
                            = Numerico.soma (map Numerico.peso batches)).
  { intros Hne. destruct HT as (T & HT & HF).
    destruct HF as [|b tr bs T' _ _]; [by rewrite <- HT in Hne|].
    eexists. split; reflexivity. }
  split; [exact HT|]. split; [exact Hm|].
  intros Hex. destruct HT as (T & HT & HF).
  assert (H1 : Numerico.soma (map Numerico.peso batches)
               = Numerico.soma (map Numerico.PESO_TOTAL seq)).
  { rewrite !Numerico.soma_acumula, <- HT. by apply acumula_concat. }
  assert (H2 : Numerico.soma (map Numerico.PESO_TOTAL seq)
               = Numerico.soma (map Numerico.PESO_TOTAL (Numerico.records df))).
  { rewrite !Numerico.soma_acumula.
    apply acumula_perm, Permutation_map. rewrite Hs. apply ordenar_perm. }
  split; [exact H1|]. split; [exact H2|].
  intros Hne. destruct (Hm Hne) as (m & Em & Ep).
  exists m. split; [exact Em|]. by rewrite Ep, H1, H2.
Qed.

Lemma pesos_dos_batches_witness :
  exists m,
    Numerico.calcular_metricas Numerico.lotes_int
      [ Numerico.fechar_batch "A" 80; Numerico.fechar_batch "B" 130;
        Numerico.fechar_batch "A" 10 ] = Some m
    /\ Numerico.peso_total_processado m = 220.
Proof.
  destruct (pesos_dos_batches (Numerico.pd_DataFrame Numerico.lotes_int)
              C_URGENCIA_NIVEL C_SETUP C_ESPESSURA Numerico.lotes_int
              [ Numerico.fechar_batch "A" 80; Numerico.fechar_batch "B" 130;
                Numerico.fechar_batch "A" 10 ])
    as (_ & _ & Hex).
  - vm_compute. reflexivity.
  - destruct (Hex Exato_int) as (_ & _ & Hm).
    destruct Hm as (m & Em & Ep); [discriminate|].
    exists m. split; [exact Em|]. rewrite Ep. reflexivity.
Defined.

(** With [float] weights the claim fails.  For lots of 20.697 and
    18.712 (setup A), 9.198 and 5.998 (setup B) the batches weigh 39.409
    and 15.196000000000002, and the total of the metrics table is
    54.605000000000004 (shown as 54.61) with either [sum]; the weights
    of the sequenced lots, which are the lots given, add up to 54.605
    (54.60) with either [sum], and neither the total of the table nor
    the batch weights taken as exact numbers add up to what the lot
    weights do. *)
Lemma pesos_dos_batches_contra :
  exists seq batches m m',
    Numerico.otimizar_sequencia (Numerico.pd_DataFrame Numerico.lotes_float)
      (C_URGENCIA_NIVEL, C_SETUP, C_ESPESSURA) = Ok (seq, batches)
    /\ seq = Numerico.lotes_float
    /\ Numerico.calcular_metricas seq batches = Some m
    /\ @Numerico.calcular_metricas _ Numerico.Numero_float_312 seq batches
       = Some m'
    /\ Numerico.peso_total_processado m = Numerico.float_54_605000000000004
    /\ Numerico.peso_total_processado m' = Numerico.float_54_605000000000004
    /\ Numerico.soma (map Numerico.PESO_TOTAL seq) = Numerico.float_54_605
    /\ @Numerico.soma _ Numerico.Numero_float_312
         (map Numerico.PESO_TOTAL seq) = Numerico.float_54_605
    /\ Numerico.float_54_605000000000004 <> Numerico.float_54_605
    /\ ~ (Numerico.valor_exato Numerico.float_54_605000000000004
          == Py.soma (map Numerico.valor_exato
                          (map Numerico.PESO_TOTAL seq)))%Q
    /\ ~ (Py.soma (map Numerico.valor_exato (map Numerico.peso batches))
          == Py.soma (map Numerico.valor_exato
                          (map Numerico.PESO_TOTAL seq)))%Q.
Proof.
  eexists _, _, _, _.
  split; [vm_compute; reflexivity|].
  split; [reflexivity|].
  split; [vm_compute; reflexivity|].
  split; [vm_compute; reflexivity|].
  split; [vm_compute; reflexivity|].
  split; [vm_compute; reflexivity|].
  split; [vm_compute; reflexivity|].
  split; [vm_compute; reflexivity|].
  split.
  { intros E.
    apply (f_equal (fun x => PrimFloat.eqb x Numerico.float_54_605)) in E.
    vm_compute in E. discriminate E. }
  split; intros E; vm_compute in E; discriminate E.
Qed.

(** ** Sequencer: no lots *)

Section SemLotes.

Lemma otimizar_sequencia_vazio_com_colunas (cols : list Coluna)
    (p1 p2 p3 : Coluna) :
  (forall c, c ∈ [p1; p2; p3; C_DATA_ENTREGA] -> c ∈ cols) ->
  otimizar_sequencia {| columns := cols; records := [] |} (p1, p2, p3)
  = Ok ([], []).
Proof.
  intros H. unfold otimizar_sequencia.
  by rewrite (sort_values_colunas {| columns := cols; records := [] |} _ H).
Qed.

(** C3: the frame that the aggregator builds from no rows has no rows
    and no columns, and sorting it raises [KeyError] on the first
    priority before the empty-sequence guard is reached. *)
Theorem otimizar_sequencia_vazio (DATA_ATUAL : Z) (p1 p2 p3 : Coluna) :
  processar_dados_lote DATA_ATUAL [] = {| columns := []; records := [] |}
  /\ otimizar_sequencia (processar_dados_lote DATA_ATUAL []) (p1, p2, p3)
     = Erro (KeyError (nome_coluna p1)).
Proof. split; reflexivity. Qed.

End SemLotes.

(** ** Lot aggregator *)

Section Agregador.

Lemma inserir_chave_In (k x : string) (l : list string) :
  In x (inserir_chave k l) <-> x = k \/ In x l.
Proof.
  induction l as [|y l IH]; simpl; [intuition|].
  destruct (String.compare k y) eqn:E; simpl.
  - apply String.compare_eq_iff in E. subst. intuition.
  - intuition.
  - rewrite IH. intuition.
Qed.

Lemma inserir_chave_sorted (k : string) (l : list string) :
  StronglySorted antes l -> StronglySorted antes (inserir_chave k l).
Proof.
  induction l as [|y l IH]; simpl; intros Hs.
  - by repeat constructor.
  - inversion Hs as [|? ? Hs' Hall]; subst.
    destruct (String.compare k y) eqn:E; [done| |].
    + constructor; [done|]. constructor; [done|].
      eapply Forall_impl; [exact Hall|].
      intros z Hz. by eapply string_compare_lt_trans.
    + constructor; [by apply IH|].
      apply Forall_forall. intros z Hz.
      apply list_elem_of_In, inserir_chave_In in Hz as [->|Hz].
      * unfold antes. by rewrite String.compare_antisym, E.
      * rewrite Forall_forall in Hall. by apply Hall, list_elem_of_In.
Qed.

Lemma chaves_ordenadas_In (x : string) (l : list string) :
  In x (chaves_ordenadas l) <-> In x l.
Proof.
  induction l as [|y l IH]; simpl; [done|].
  rewrite inserir_chave_In, IH. intuition.
Qed.

Lemma chaves_ordenadas_sorted (l : list string) :
  StronglySorted antes (chaves_ordenadas l).
Proof.
  induction l as [|y l IH]; simpl; [constructor|].
  by apply inserir_chave_sorted.
Qed.

Lemma antes_irrefl (a : string) : ~ antes a a.
Proof. unfold antes. by rewrite (cmp_refl String.compare). Qed.

Lemma sorted_NoDup (l : list string) : StronglySorted antes l -> NoDup l.
Proof.
  induction 1 as [|x l _ IH Hall]; constructor; [|done].
  intros Hin. rewrite Forall_forall in Hall.
  by apply Hall, antes_irrefl in Hin.
Qed.

Lemma LOTE_lote_do_grupo (DATA_ATUAL : Z) (id : string) (g : list LineItem) :
  LOTE (lote_do_grupo DATA_ATUAL id g) = id.
Proof.
  unfold lote_do_grupo.
  destruct (primeira_dimensao _), (calcular_urgencia _ _). done.
Qed.

Lemma processar_dados_lote_ids (DATA_ATUAL : Z) (df : list LineItem) :
  map LOTE (records (processar_dados_lote DATA_ATUAL df))
  = chaves_ordenadas (map row_LOTE df).
Proof.
  unfold processar_dados_lote, groupby. simpl.
  rewrite !map_map. rewrite <- (map_id (chaves_ordenadas _)) at 2.
  apply map_ext. intros k. apply LOTE_lote_do_grupo.
Qed.

Lemma ids_do_agregador (DATA_ATUAL : Z) (df : list LineItem) :
  let ids := map LOTE (records (processar_dados_lote DATA_ATUAL df)) in
  NoDup ids
  /\ (forall id, In id ids <-> In id (map row_LOTE df))
  /\ StronglySorted antes ids.
Proof.
  intros ids. unfold ids. rewrite processar_dados_lote_ids.
  split; [apply sorted_NoDup, chaves_ordenadas_sorted|].
  split; [intros id; apply chaves_ordenadas_In|].
  apply chaves_ordenadas_sorted.
Qed.

(** C5, as the code has it: the aggregator emits one record per
    distinct lot id of the input, in ascending order of lot id. *)
Theorem processar_dados_lote_ordem (DATA_ATUAL : Z) (df : list LineItem) :
  let ids := map LOTE (records (processar_dados_lote DATA_ATUAL df)) in
  NoDup ids
  /\ (forall id, In id ids <-> In id (map row_LOTE df))
  /\ StronglySorted (fun a b => String.compare a b = Lt) ids.
Proof. apply ids_do_agregador. Qed.

Lemma processar_dados_lote_ordem_witness :
  NoDup (map LOTE (records (processar_dados_lote 0 linhas_exemplo))).
Proof. apply (processar_dados_lote_ordem 0 linhas_exemplo). Defined.

(** C5 as stated fails: lot ids first seen as B, A come out as A, B. *)
Lemma processar_dados_lote_ordem_contra :
  map LOTE (records (processar_dados_lote 0 linhas_exemplo)) = ["A"; "B"]
  /\ unique (map row_LOTE linhas_exemplo) = ["B"; "A"]
  /\ map LOTE (records (processar_dados_lote 0 linhas_exemplo))
     <> unique (map row_LOTE linhas_exemplo).
Proof. split; [|split]; vm_compute; [reflexivity|reflexivity|discriminate]. Qed.

End Agregador.

(** ** Reporter *)

Section RelatorioLemas.

Lemma unique_elem_of (x : string) (l : list string) : x ∈ unique l <-> x ∈ l.
Proof.
  induction l as [|y l IH]; simpl; [done|].
  rewrite !elem_of_cons, list_elem_of_filter, IH.
  destruct (decide (x = y)); intuition.
Qed.

Lemma unique_NoDup (l : list string) : NoDup (unique l).
Proof.
  induction l as [|y l IH]; simpl; constructor.
  - rewrite list_elem_of_filter. intuition.
  - by apply NoDup_filter.
Qed.

Lemma filter_todos {A : Type} (P : A -> Prop) `{!forall x, Decision (P x)}
    (l : list A) :
  Forall P l -> filter P l = l.
Proof.
  induction 1 as [|x l Hx _ IH]; [done|].
  rewrite filter_cons_True by done. by rewrite IH.
Qed.

Lemma unique_NoDup_id (l : list string) : NoDup l -> unique l = l.
Proof.
  induction 1 as [|y l Hy _ IH]; simpl; [done|].
  rewrite IH. f_equal. apply filter_todos.
  apply Forall_forall. intros x Hx ->. done.
Qed.

Lemma mapa_posicao_snoc (ids : list string) (x : string) :
  mapa_posicao_de (ids ++ [x])
  = <[x := Z.of_nat (length ids) + 1]> (mapa_posicao_de ids).
Proof.
  unfold mapa_posicao_de, enumerate.
  rewrite imap_app, foldl_app. simpl.
  by rewrite Nat.add_0_r.
Qed.

Lemma mapa_posicao_lookup (ids : list string) (id : string) (p : Z) :
  NoDup ids ->
  mapa_posicao_de ids !! id = Some p
  <-> exists k, ids !! k = Some id /\ p = Z.of_nat k + 1.
Proof.
  revert id p. induction ids as [|x ids IH] using rev_ind; intros id p Hnd.
  - unfold mapa_posicao_de. simpl. rewrite lookup_empty.
    split; [done|]. by intros (k & Hk & _).
  - apply NoDup_app in Hnd as (Hnd & Hx & _).
    rewrite mapa_posicao_snoc.
    destruct (decide (x = id)) as [->|Hne].
    + rewrite lookup_insert_eq. split.
      * intros [= <-]. exists (length ids).
        split; [|done]. by rewrite list_lookup_middle.
      * intros (k & Hk & ->). f_equal.
        apply lookup_app_Some in Hk as [Hk|[Hl Hk]].
        -- exfalso. apply (Hx id); [|by apply list_elem_of_here].
           by eapply list_elem_of_lookup_2.
        -- destruct (k - length ids)%nat eqn:E; [|done]. f_equal. lia.
    + rewrite lookup_insert_ne by done. rewrite (IH id p Hnd).
      split; intros (k & Hk & ->); exists k; split; try done.
      * by apply lookup_app_l_Some.
      * apply lookup_app_Some in Hk as [Hk|[Hl Hk]]; [done|].
        destruct (k - length ids)%nat; [|done]. simpl in Hk. congruence.
Qed.

Lemma mapa_posicao_is_Some (l : list string) (id : string) :
  is_Some (mapa_posicao_de (unique l) !! id) <-> id ∈ l.
Proof.
  rewrite <- unique_elem_of, list_elem_of_lookup. split.
  - intros [p Hp]. apply mapa_posicao_lookup in Hp as (k & Hk & _);
      [eauto|apply unique_NoDup].
  - intros [k Hk]. exists (Z.of_nat k + 1).
    apply mapa_posicao_lookup; [apply unique_NoDup|eauto].
Qed.

End RelatorioLemas.

Lemma omap_linha_final (mp : gmap string Z) (mi : gmap string Lote)
    (seq : list Lote) (rows : list LineItem) :
  mp = mapa_posicao_de (unique (map LOTE seq)) ->
  map linha_original (omap (linha_final mp mi) rows)
  = filter (fun r => row_LOTE r ∈ map LOTE seq) rows.
Proof.
  intros Hmp. induction rows as [|r rows IH]; [done|].
  simpl. unfold linha_final at 1.
  destruct (mp !! row_LOTE r) as [p|] eqn:E.
  - rewrite filter_cons_True.
    + simpl. f_equal. exact IH.
    + apply mapa_posicao_is_Some. rewrite <- Hmp, E. eauto.
  - rewrite filter_cons_False; [exact IH|].
    intros Hin%mapa_posicao_is_Some. rewrite <- Hmp, E in Hin. by destruct Hin.
Qed.

Section RelatorioTeorema.
Variable sort_values_posicao : list LinhaRelatorio -> list LinhaRelatorio.
Hypothesis sort_values_posicao_perm :
  forall l, Permutation (sort_values_posicao l) l.
Hypothesis sort_values_posicao_sorted :
  forall l, StronglySorted
              (fun a b => Posicao_na_Sequencia a <= Posicao_na_Sequencia b)
              (sort_values_posicao l).

Local Abbreviation relatorio := (gerar_relatorio_final sort_values_posicao).

Lemma linhas_do_relatorio (seq : list Lote) (rows : list LineItem) :
  Permutation (map linha_original (relatorio seq rows))
              (filter (fun r => row_LOTE r ∈ map LOTE seq) rows).
Proof.
  unfold gerar_relatorio_final. destruct seq as [|x seq'].
  - simpl. induction rows as [|r rows IH]; [done|].
    rewrite filter_cons_False; [done|]. by intros ?%elem_of_nil.
  - rewrite sort_values_posicao_perm.
    by rewrite (omap_linha_final _ _ (x :: seq') rows eq_refl).
Qed.

Lemma relatorio_elem_of (seq : list Lote) (rows : list LineItem)
    (r : LinhaRelatorio) :
  seq <> [] ->
  r ∈ relatorio seq rows
  <-> exists l, l ∈ rows
      /\ linha_final (mapa_posicao_de (unique (map LOTE seq)))
                     (set_index (drop_duplicates seq)) l = Some r.
Proof.
  intros Hne. unfold gerar_relatorio_final.
  destruct seq as [|x seq']; [done|].
  rewrite sort_values_posicao_perm. apply list_elem_of_omap.
Qed.

(** C8: every lot id that the aggregator emits has exactly one rank in
    the sequence, has a row in the detail report, and each of its rows
    carries that rank counted from 1; the report holds exactly the
    input rows whose lot id occurs in the sequence, the others are
    dropped, and it is in ascending order of position. *)
Theorem relatorio_posicoes (DATA_ATUAL : Z) (rows : list LineItem)
    (p1 p2 p3 : Coluna) (seq : list Lote) (batches : list Batch) :
  otimizar_sequencia (processar_dados_lote DATA_ATUAL rows) (p1, p2, p3)
    = Ok (seq, batches) ->
  (forall id,
      In id (map LOTE (records (processar_dados_lote DATA_ATUAL rows))) ->
      exists k,
        map LOTE seq !! k = Some id
        /\ (forall k', map LOTE seq !! k' = Some id -> k' = k)
        /\ (exists r, r ∈ relatorio seq rows
                      /\ row_LOTE (linha_original r) = id)
        /\ (forall r, r ∈ relatorio seq rows ->
                      row_LOTE (linha_original r) = id ->
                      Posicao_na_Sequencia r = Z.of_nat k + 1))
  /\ (forall seq' rows',
        Permutation (map linha_original (relatorio seq' rows'))
                    (filter (fun r => row_LOTE r ∈ map LOTE seq') rows'))
  /\ (forall seq' rows',
        StronglySorted
          (fun a b => Posicao_na_Sequencia a <= Posicao_na_Sequencia b)
          (relatorio seq' rows')).
Proof.
  intros H.
  split; [|split; [apply linhas_do_relatorio|]].
  2:{ intros seq' rows'. unfold gerar_relatorio_final.
      destruct seq'; [constructor|apply sort_values_posicao_sorted]. }
  apply otimizar_sequencia_Ok in H as [Hs _].
  pose proof (ids_do_agregador DATA_ATUAL rows) as (Hnd & Hin & _).
  assert (Hperm : Permutation (map LOTE seq)
            (map LOTE (records (processar_dados_lote DATA_ATUAL rows)))).
  { apply Permutation_map. rewrite Hs. apply ordenar_perm. }
  assert (Hnd' : NoDup (map LOTE seq)) by (by rewrite Hperm).
  intros id Hid.
  assert (Hseq : id ∈ map LOTE seq) by (by rewrite Hperm; apply list_elem_of_In).
  assert (Hne : seq <> []) by (intros ->; by apply elem_of_nil in Hseq).
  pose proof Hseq as [k Hk]%list_elem_of_lookup.
  exists k. split; [done|].
  split; [intros k' Hk'; by eapply NoDup_lookup|].
  assert (Hpos : forall p,
             mapa_posicao_de (unique (map LOTE seq)) !! id = Some p
             <-> p = Z.of_nat k + 1).
  { intros p. rewrite (unique_NoDup_id _ Hnd').
    rewrite (mapa_posicao_lookup _ _ _ Hnd'). split.
    - intros (k' & Hk' & ->). by rewrite (NoDup_lookup _ _ _ _ Hnd' Hk' Hk).
    - intros ->. eauto. }
  split.
  - apply Hin, in_map_iff in Hid as (l & Hl & Hlin).
    eexists. split.
    + apply relatorio_elem_of; [done|]. exists l.
      split; [by apply list_elem_of_In|].
      unfold linha_final. rewrite Hl.
      by rewrite (proj2 (Hpos _) eq_refl).
    + done.
  - intros r Hr Hrid.
    apply relatorio_elem_of in Hr as (l & _ & Hl); [|done].
    unfold linha_final in Hl.
    destruct (mapa_posicao_de _ !! row_LOTE l) as [p|] eqn:E; [|done].
    injection Hl as <-. simpl in *. subst id. by apply Hpos.
Qed.

End RelatorioTeorema.

#[global] Instance Comparador_posicao : Comparador compara_posicao.
Proof. apply (Comparador_campo Posicao_na_Sequencia Z.compare), _. Qed.

Lemma relatorio_posicoes_witness :
  exists k,
    map LOTE sequencia_exemplo !! k = Some "B"
    /\ exists r,
        r ∈ gerar_relatorio_final (ordenar compara_posicao)
              sequencia_exemplo linhas_exemplo
        /\ Posicao_na_Sequencia r = Z.of_nat k + 1.
Proof.
  edestruct (relatorio_posicoes (ordenar compara_posicao)
               (ordenar_perm compara_posicao)
               (ordenar_sorted compara_posicao)
               0 linhas_exemplo C_URGENCIA_NIVEL C_SETUP C_ESPESSURA
               sequencia_exemplo) as [H _].
  - vm_compute. reflexivity.
  - destruct (H "B") as (k & Hk & _ & (r & Hr & Hid) & Hpos).
    + vm_compute. auto.
    + exists k. split; [exact Hk|]. exists r. split; [exact Hr|].
      apply Hpos; assumption.
Defined.

(** ** Descriptor parser *)

Section ReLemas.
Context {C R : Type}.
Implicit Types (p : C -> bool) (s l r : list C) (k : list C -> option R).

Lemma estrela_inv p s k x :
  estrela p s k = Some x ->
  exists l r, s = l ++ r /\ todos p l /\ k r = Some x.
Proof.
  induction s as [|c s IH]; simpl; intros H.
  - exists [], []. by repeat split; [constructor|].
  - destruct (p c) eqn:Ec.
    + destruct (estrela p s k) as [y|] eqn:E.
      * injection H as ->. destruct (IH eq_refl) as (l & r & -> & Hl & Hk).
        exists (c :: l), r. repeat split; [by constructor|done].
      * exists [], (c :: s). by repeat split; [constructor|].
    + exists [], (c :: s). by repeat split; [constructor|].
Qed.

Lemma mais_inv p s k x :
  mais p s k = Some x ->
  exists l r, s = l ++ r /\ l <> [] /\ todos p l /\ k r = Some x.
Proof.
  unfold mais. destruct s as [|c s]; [done|].
  destruct (p c) eqn:Ec; [|done].
  intros (l & r & -> & Hl & Hk)%estrela_inv.
  exists (c :: l), r. repeat split; [done|by constructor|done].
Qed.

(** Giving characters back is of no use to a continuation that
    refuses every input starting in the class. *)
Lemma estrela_app_det p l r k :
  todos p l -> nao_comeca p r ->
  (forall c r', p c = true -> k (c :: r') = None) ->
  estrela p (l ++ r) k = k r.
Proof.
  intros Hl Hr Hk. induction Hl as [|c l Hc _ IH]; simpl.
  - destruct r as [|c r]; [done|]. simpl in *. by rewrite Hr.
  - rewrite Hc, IH. destruct (k r) eqn:E; [done|]. by apply Hk.
Qed.

(** The longest run is tried first. *)
Lemma estrela_app_guloso p l r k x :
  todos p l -> nao_comeca p r -> k r = Some x ->
  estrela p (l ++ r) k = Some x.
Proof.
  intros Hl Hr Hk. induction Hl as [|c l Hc _ IH]; simpl.
  - destruct r as [|c r]; [done|]. simpl in *. by rewrite Hr.
  - by rewrite Hc, IH.
Qed.

Lemma mais_app_det p l r k :
  l <> [] -> todos p l -> nao_comeca p r ->
  (forall c r', p c = true -> k (c :: r') = None) ->
  mais p (l ++ r) k = k r.
Proof.
  intros Hne Hl Hr Hk. destruct Hl as [|c l Hc Hl]; [done|].
  unfold mais. simpl. rewrite Hc. by apply estrela_app_det.
Qed.

Lemma mais_app_guloso p l r k x :
  l <> [] -> todos p l -> nao_comeca p r -> k r = Some x ->
  mais p (l ++ r) k = Some x.
Proof.
  intros Hne Hl Hr Hk. destruct Hl as [|c l Hc Hl]; [done|].
  unfold mais. simpl. rewrite Hc. by apply estrela_app_guloso.
Qed.

Lemma consumido_app l r : consumido (l ++ r) r = l.
Proof.
  unfold consumido. rewrite length_app.
  replace (length l + length r - length r)%nat with (length l) by lia.
  by rewrite take_app_length.
Qed.

End ReLemas.

Section ReSearch.
Context {C : Type}.
Implicit Types (r : regex C) (s pre : list C) (m : gmap nat (list C)).

Lemma re_search_None r s :
  (forall i, re_match r (drop i s) = None) -> re_search r s = None.
Proof.
  induction s as [|c s IH]; intros H; pose proof (H 0%nat) as H0;
    simpl in *; rewrite H0; [done|].
  apply IH. intros i. apply (H (S i)).
Qed.

Lemma re_search_None_inv r s :
  re_search r s = None -> forall i, re_match r (drop i s) = None.
Proof.
  induction s as [|c s IH]; intros Hs i.
  - rewrite drop_nil. cbn [re_search] in Hs. by destruct (re_match r []).
  - cbn [re_search] in Hs. destruct (re_match r (c :: s)) eqn:E; [done|].
    destruct i as [|i]; [done|]. simpl. by apply IH.
Qed.

Lemma re_search_primeiro r pre s m :
  re_match r s = Some m ->
  (forall i, (i < length pre)%nat -> re_match r (drop i (pre ++ s)) = None) ->
  re_search r (pre ++ s) = Some m.
Proof.
  intros Hm. induction pre as [|c pre IH]; intros H; simpl.
  - destruct s; simpl; by rewrite Hm.
  - pose proof (H 0%nat ltac:(simpl; lia)) as H0. simpl in H0. rewrite H0.
    apply IH. intros i Hi. apply (H (S i)). simpl. lia.
Qed.

(** The match found by the search is at the leftmost position that has
    one. *)
Lemma re_search_Some r s m :
  re_search r s = Some m ->
  exists pre s', s = pre ++ s' /\ re_match r s' = Some m
    /\ forall i, (i < length pre)%nat -> re_match r (drop i s) = None.
Proof.
  induction s as [|c s IH]; simpl.
  - destruct (re_match r []) as [m'|] eqn:E; [|done].
    intros [= <-]. exists [], []. split; [done|]. split; [done|].
    simpl. intros i Hi. lia.
  - destruct (re_match r (c :: s)) as [m'|] eqn:E.
    + intros [= <-]. exists [], (c :: s). split; [done|]. split; [done|].
      simpl. intros i Hi. lia.
    + intros (pre & s' & -> & Hm & Hpre)%IH.
      exists (c :: pre), s'. split; [done|]. split; [done|].
      intros [|i] Hi; [done|]. simpl. apply Hpre. simpl in Hi. lia.
Qed.

Lemma separa_classe (p : C -> bool) (l : list C) :
  exists d t : list C, l = d ++ t /\ todos p d /\ nao_comeca p t.
Proof.
  induction l as [|c l (d & t & -> & Hd & Ht)].
  - exists [], []. split; [done|]. split; [constructor|done].
  - destruct (p c) eqn:E.
    + exists (c :: d), t. split; [done|]. split; [by constructor|done].
    + exists [], (c :: d ++ t). split; [done|]. split; [constructor|done].
Qed.

End ReSearch.

(** *** The parser on ASCII text *)

Section Padrao.

Local Abbreviation resto_padrao :=
  (Seq (Estrela espaco)
       (Seq (Classe letra_X)
            (Seq (Estrela espaco) (Grupo 2 (Mais digito))))).

Local Abbreviation grupos := (gmap nat (list ascii)).

Lemma letra_X_eq c : letra_X c = true <-> c = "X"%char.
Proof. unfold letra_X. apply Ascii.eqb_eq. Qed.

Lemma casa_resto_inv (s : list ascii) (g m : grupos)
    (k : list ascii -> grupos -> option grupos) :
  casa resto_padrao s g k = Some m ->
  exists e1 e2 w resto,
    s = e1 ++ "X"%char :: e2 ++ w ++ resto
    /\ todos espaco e1 /\ todos espaco e2 /\ digitos w
    /\ k resto (<[2%nat := w]> g) = Some m.
Proof.
  cbn [casa]. intros (e1 & r1 & -> & He1 & H)%estrela_inv.
  destruct r1 as [|c r2]; [done|].
  destruct (letra_X c) eqn:Ec; [|done]. apply letra_X_eq in Ec as ->.
  apply estrela_inv in H as (e2 & r3 & -> & He2 & H).
  apply mais_inv in H as (w & resto & -> & Hne & Hw & H).
  rewrite consumido_app in H.
  by exists e1, e2, w, resto.
Qed.

Lemma re_match_padrao_eq (s : list ascii) :
  re_match padrao s =
    let K := fun s' (g' : grupos) =>
      casa resto_padrao s' (<[1%nat := consumido s s']> g')
           (fun _ g => Some g) in
    match mais digito s
            (fun s1 => match s1 with
                       | c :: s2 =>
                           if ponto_ou_virgula c
                           then mais digito s2 (fun s3 => K s3 ∅)
                           else None
                       | [] => None
                       end) with
    | Some x => Some x
    | None => mais digito s (fun s' => K s' ∅)
    end.
Proof. reflexivity. Qed.

(** Every match of the pattern at the start of [s] is an occurrence of
    <thickness>X<width>. *)
Lemma re_match_padrao_inv (s : list ascii) (m : grupos) :
  re_match padrao s = Some m -> padrao_no_inicio s.
Proof.
  rewrite re_match_padrao_eq. cbv zeta.
  match goal with
  | |- match ?a with _ => _ end = _ -> _ => destruct a as [m'|] eqn:E1
  end.
  - intros _. apply mais_inv in E1 as (i & r1 & -> & Hi & Hid & H).
    destruct r1 as [|c r2]; [done|].
    destruct (ponto_ou_virgula c) eqn:Ec; [|done].
    apply mais_inv in H as (f & r3 & -> & Hf & Hfd & H).
    apply casa_resto_inv in H as (e1 & e2 & w & resto & -> & ? & ? & ? & _).
    eexists (i ++ c :: f), _, w, resto.
    split; [by apply td_fracao|].
    exists e1, e2. by rewrite <- app_assoc.
  - intros (i & r1 & -> & Hi & Hid & H)%mais_inv.
    apply casa_resto_inv in H as (e1 & e2 & w & resto & -> & ? & ? & ? & _).
    eexists i, _, w, resto. split; [by apply td_inteiro|].
    by exists e1, e2.
Qed.

Lemma parse_sem_padrao (s : string) :
  (forall i, ~ padrao_no_inicio (drop i (chars s))) ->
  parse_dimensoes (Texto s) = (None, None).
Proof.
  intros H. unfold parse_dimensoes.
  destruct (contem _ _); [done|].
  rewrite re_search_None; [done|].
  intros i. destruct (re_match padrao _) as [m|] eqn:E; [|done].
  by apply re_match_padrao_inv, H in E.
Qed.

Lemma X_no_padrao (s : list ascii) : padrao_no_inicio s -> "X"%char ∈ s.
Proof.
  intros (t & v & w & resto & _ & e1 & e2 & -> & _).
  rewrite !elem_of_app, elem_of_cons. auto.
Qed.

End Padrao.

Section ParserTeoremas.

(** C9: with a lower-case x between thickness and width the parser
    gives (None, None), as it does for every text without an upper-case
    X, while the upper-case text parses and the marker is recognised in
    lower case. *)
Theorem parse_dimensoes_x_minusculo :
  parse_dimensoes (Texto "4,75x1250") = (None, None)
  /\ parse_dimensoes (Texto "4,75X1250") = (Some 4.75%Q, Some 1250)
  /\ (forall s, "X"%char ∉ chars s -> parse_dimensoes (Texto s) = (None, None))
  /\ contem marca_rebaixado (upper (chars "rebaixad")) = true.
Proof.
  split; [by vm_compute|]. split; [by vm_compute|]. split; [|by vm_compute].
  intros s Hs. apply parse_sem_padrao. intros i Hi%X_no_padrao.
  apply Hs. rewrite <- (take_drop i (chars s)). apply elem_of_app. by right.
Qed.

Lemma parse_dimensoes_x_minusculo_witness :
  parse_dimensoes (Texto "4,75x1250") = (None, None).
Proof.
  apply (proj1 (proj2 (proj2 parse_dimensoes_x_minusculo))).
  intros H. apply list_elem_of_In in H. simpl in H.
  repeat (destruct H as [H|H]; [discriminate H|]). exact H.
Defined.

End ParserTeoremas.

(** *** Rounding to the nearest double *)

Section Arredondamento.

Lemma arredonda_spec (N D : Z) :
  0 <= N -> 0 < D ->
  N / D <= arredonda N D <= N / D + 1
  /\ 2 * Z.abs (N - arredonda N D * D) <= D
  /\ (2 * Z.abs (N - arredonda N D * D) = D -> Z.even (arredonda N D) = true).
Proof.
  intros HN HD. unfold arredonda.
  pose proof (Z.div_mod N D ltac:(lia)) as E.
  pose proof (Z.mod_pos_bound N D HD) as Hr.
  set (m0 := N / D) in *. set (r := N mod D) in *.
  destruct (Z.compare_spec (2 * r) D) as [Hc|Hc|Hc].
  - destruct (Z.even m0) eqn:Ev.
    + split; [lia|]. split; [nia|]. done.
    + split; [lia|]. split; [nia|]. intros _.
      rewrite Z.even_add, Ev. reflexivity.
  - split; [lia|]. split; [nia|]. intros Ht. nia.
  - split; [lia|]. split; [nia|]. intros Ht. nia.
Qed.

Lemma ulp_de_spec (N d : Z) :
  0 < N -> 0 < d ->
  0 <= ulp_de N d
  /\ N < 2 ^ 53 * (d * 2 ^ ulp_de N d)
  /\ (52 < Z.log2 N - Z.log2 d -> 2 ^ 52 * (d * 2 ^ ulp_de N d) <= N)
  /\ (Z.log2 N - Z.log2 d <= 52 -> ulp_de N d = 0).
Proof.
  intros HN Hd. unfold ulp_de.
  pose proof (Z.log2_spec N HN) as [Ha1 Ha2].
  pose proof (Z.log2_spec d Hd) as [Hb1 Hb2].
  pose proof (Z.log2_nonneg N) as Ha0. pose proof (Z.log2_nonneg d) as Hb0.
  set (a := Z.log2 N) in *. set (b := Z.log2 d) in *.
  destruct (Z.leb_spec (a - b) 52) as [HE|HE].
  - split; [lia|]. split; [|split; [lia|done]].
    rewrite Z.pow_0_r, Z.mul_1_r.
    assert (Hp : 2 ^ Z.succ a <= 2 ^ (53 + b)) by (apply Z.pow_le_mono_r; lia).
    rewrite Z.pow_add_r in Hp by lia. nia.
  - assert (Hup : N < d * 2 ^ (a - b + 1)).
    { replace (Z.succ a) with ((a - b + 1) + b) in Ha2 by lia.
      rewrite Z.pow_add_r in Ha2 by lia.
      assert (0 < 2 ^ (a - b + 1)) by (apply Z.pow_pos_nonneg; lia). nia. }
    assert (Hlo : d * 2 ^ (a - b - 1) <= N).
    { replace a with ((a - b - 1) + Z.succ b) in Ha1 at 1 by lia.
      rewrite Z.pow_add_r in Ha1 by lia.
      assert (0 < 2 ^ (a - b - 1)) by (apply Z.pow_pos_nonneg; lia). nia. }
    destruct (Z.leb_spec (d * 2 ^ (a - b)) N) as [Hc|Hc].
    + split; [lia|].
      replace (a - b + 1) with (53 + (a - b - 52)) in Hup by lia.
      rewrite Z.pow_add_r in Hup by lia.
      replace (a - b) with (52 + (a - b - 52)) in Hc at 1 by lia.
      rewrite Z.pow_add_r in Hc by lia.
      split; [lia|]. split; [lia|lia].
    + split; [lia|].
      replace (a - b) with (53 + (a - b - 53)) in Hc at 1 by lia.
      rewrite Z.pow_add_r in Hc by lia.
      replace (a - b - 1) with (52 + (a - b - 53)) in Hlo by lia.
      rewrite Z.pow_add_r in Hlo by lia.
      split; [lia|]. split; [lia|lia].
Qed.

Lemma escala_de_spec (n d : Z) :
  0 < n -> 0 < d ->
  0 <= escala_de n d <= 1074
  /\ (Z.log2 (n * 2 ^ escala_de n d) - Z.log2 d <= 52 -> escala_de n d = 1074).
Proof.
  intros Hn Hd. unfold escala_de. split; [lia|].
  rewrite Z.log2_mul_pow2 by lia. lia.
Qed.

(** The result is [m * 2^(u-s)], a double: the exponent is at least
    -1074 and [m] has 53 bits, or fewer when the exponent is -1074;
    [n / d] is within half of [2^(u-s)] of it, and on a tie [m] is
    even.  What reaches 2^1024 is replaced by 2^1024. *)
Lemma double_positivo_spec (n d : Z) :
  0 < n -> 0 < d ->
  exists s u m : Z,
    0 <= s <= 1074 /\ 0 <= u
    /\ 0 <= m <= 2 ^ 53
    /\ (2 ^ 52 <= m \/ (u = 0 /\ s = 1074))
    /\ 2 * Z.abs (n * 2 ^ s - m * (d * 2 ^ u)) <= d * 2 ^ u
    /\ (2 * Z.abs (n * 2 ^ s - m * (d * 2 ^ u)) = d * 2 ^ u -> Z.even m = true)
    /\ double_positivo n d
       = if 2 ^ (1024 + s) <=? m * 2 ^ u then inject_Z (2 ^ 1024)
         else Qred (m * 2 ^ u # Z.to_pos (2 ^ s)).
Proof.
  intros Hn Hd.
  destruct (escala_de_spec n d Hn Hd) as [Hs Hs1074].
  set (s := escala_de n d) in *.
  assert (HN : 0 < n * 2 ^ s).
  { assert (0 < 2 ^ s) by (apply Z.pow_pos_nonneg; lia). nia. }
  destruct (ulp_de_spec (n * 2 ^ s) d HN Hd) as (Hu & Hup & Hlo & Hu0).
  set (u := ulp_de (n * 2 ^ s) d) in *.
  assert (HD : 0 < d * 2 ^ u).
  { assert (0 < 2 ^ u) by (apply Z.pow_pos_nonneg; lia). nia. }
  destruct (arredonda_spec (n * 2 ^ s) (d * 2 ^ u) ltac:(lia) HD)
    as (Hm & Herr & Hpar).
  set (m := arredonda (n * 2 ^ s) (d * 2 ^ u)) in *.
  assert (Hq0 : 0 <= n * 2 ^ s / (d * 2 ^ u)) by (apply Z.div_pos; lia).
  assert (Hq1 : n * 2 ^ s / (d * 2 ^ u) < 2 ^ 53).
  { apply Z.div_lt_upper_bound; lia. }
  exists s, u, m. split; [done|]. split; [done|].
  split; [lia|]. split.
  - destruct (Z.leb_spec (Z.log2 (n * 2 ^ s) - Z.log2 d) 52) as [HE|HE].
    + right. split; [by apply Hu0|by apply Hs1074].
    + left. specialize (Hlo HE).
      assert (2 ^ 52 <= n * 2 ^ s / (d * 2 ^ u)); [|lia].
      apply Z.div_le_lower_bound; lia.
  - split; [done|]. split; [done|]. reflexivity.
Qed.

End Arredondamento.

(** [double] agrees with the division of the processor on the quotients
    of the whole numbers up to 60, of a thousandth to a hundred
    thousandths, and of numbers near 2^53. *)
Lemma double_confere :
  forallb (fun n => forallb (fun d =>
      Qeq_bool (Numerico.valor_exato (Numerico.quociente_float n d))
               (double (n # Z.to_pos d)))
    (Numerico.ate 60 ++ [1000; 100000; 9007199254740991])) 
    (Numerico.ate 60 ++ [475; 476; 4751; 9007199254740989]) = true.
Proof. vm_compute. reflexivity. Qed.

(** Some doubles: 4.75 is one, 0.1 and 4.76 are not, a tie goes to the
    even neighbour, and what exceeds the largest double is 2^1024. *)
Lemma double_exemplos :
  double 4.75 = 19 # 4
  /\ double 0.1 = 3602879701896397 # 36028797018963968
  /\ double 4.76 = 2679641778285445 # 562949953421312
  /\ double 4.7500000000000000001 = 19 # 4
  /\ double (inject_Z (2 ^ 53 + 1)) = inject_Z (2 ^ 53)
  /\ double (inject_Z (2 ^ 53 + 3)) = inject_Z (2 ^ 53 + 4)
  /\ double (inject_Z (10 ^ 400)) = inject_Z (2 ^ 1024)
  /\ double (1 # 10 ^ 400) = 0%Q.
Proof. repeat split; vm_compute; reflexivity. Qed.

(** *** The parser on any text *)

Section ClassesUnicode.
Import Unicode.
Context `{Tabelas}.

Lemma digito_de_ascii (c : N) :
  (c < 128)%N -> digito c = ((48 <=? c) && (c <=? 57))%N.
Proof.
  intros Hc. unfold digito. rewrite (decimal_de_ascii c Hc).
  unfold decimal_ascii. by destruct (_ && _).
Qed.

Lemma digito_nao_espaco (c : N) : digito c = true -> espaco c = false.
Proof.
  unfold digito, espaco. destruct (decimal c) as [v|] eqn:E; [|done].
  intros _. by apply (decimal_nao_isspace c v).
Qed.

Lemma espaco_nao_digito (c : N) : espaco c = true -> digito c = false.
Proof.
  intros Hc. destruct (digito c) eqn:E; [|done].
  apply digito_nao_espaco in E. congruence.
Qed.

Lemma letra_X_88 (c : N) : letra_X c = true <-> c = 88%N.
Proof. unfold letra_X. apply N.eqb_eq. Qed.

Lemma separador_casos (c : N) :
  ponto_ou_virgula c = true -> c = 46%N \/ c = 44%N.
Proof.
  unfold ponto_ou_virgula. intros [E|E]%orb_true_iff; apply N.eqb_eq in E; auto.
Qed.

Lemma digito_nao_X (c : N) : digito c = true -> letra_X c = false.
Proof.
  intros Hc. destruct (letra_X c) eqn:E; [|done].
  apply letra_X_88 in E as ->. by rewrite digito_de_ascii in Hc.
Qed.

Lemma espaco_nao_X (c : N) : espaco c = true -> letra_X c = false.
Proof.
  intros Hc. destruct (letra_X c) eqn:E; [|done].
  apply letra_X_88 in E as ->. unfold espaco in Hc.
  by rewrite isspace_de_ascii in Hc.
Qed.

Lemma separador_nao_digito (c : N) :
  ponto_ou_virgula c = true -> digito c = false.
Proof. intros [->| ->]%separador_casos; by rewrite digito_de_ascii. Qed.

Lemma digito_nao_separador (c : N) :
  digito c = true -> ponto_ou_virgula c = false.
Proof.
  intros Hc. destruct (ponto_ou_virgula c) eqn:E; [|done].
  apply separador_nao_digito in E. congruence.
Qed.

Lemma separador_nao_espaco (c : N) :
  ponto_ou_virgula c = true -> espaco c = false.
Proof.
  unfold espaco. intros [->| ->]%separador_casos; by rewrite isspace_de_ascii.
Qed.

End ClassesUnicode.

Section PadraoUnicode.
Import Unicode.
Context `{Tabelas}.

Local Abbreviation resto_padrao :=
  (Seq (Estrela espaco)
       (Seq (Classe letra_X)
            (Seq (Estrela espaco) (Grupo 2 (Mais digito))))).

Local Abbreviation grupos := (gmap nat (list N)).

Lemma nao_comeca_digitos (p : N -> bool) (w r : list N) :
  digitos w -> (forall c, digito c = true -> p c = false) ->
  nao_comeca p (w ++ r).
Proof.
  intros [Hne Hw] Hp. destruct Hw as [|c w Hc _]; [done|]. simpl. auto.
Qed.

Lemma casa_resto_digito (c : N) (r : list N) (g : grupos)
    (k : list N -> grupos -> option grupos) :
  digito c = true -> casa resto_padrao (c :: r) g k = None.
Proof.
  intros Hc. simpl.
  rewrite (digito_nao_espaco c Hc). by rewrite (digito_nao_X c Hc).
Qed.

Lemma casa_resto_ok (e1 e2 w resto : list N) (g : grupos) :
  todos espaco e1 -> todos espaco e2 -> digitos w ->
  nao_comeca digito resto ->
  casa resto_padrao (e1 ++ 88%N :: e2 ++ w ++ resto) g
       (fun _ g' => Some g')
  = Some (<[2%nat := w]> g).
Proof.
  intros H1 H2 Hw Hr. cbn [casa].
  rewrite estrela_app_det; [|done| |].
  2:{ simpl. unfold espaco. by rewrite isspace_de_ascii. }
  2:{ intros c r' Hc. by rewrite (espaco_nao_X c Hc). }
  cbn.
  rewrite estrela_app_det; [|done| |].
  2:{ apply nao_comeca_digitos; [done|apply digito_nao_espaco]. }
  2:{ intros c r' Hc. unfold mais. by rewrite (espaco_nao_digito c Hc). }
  destruct Hw as [Hne Hw].
  erewrite mais_app_guloso; [|done|done|done|reflexivity].
  by rewrite consumido_app.
Qed.

Lemma casa_resto_inv_unicode (s : list N) (g m : grupos)
    (k : list N -> grupos -> option grupos) :
  casa resto_padrao s g k = Some m ->
  exists e1 e2 w resto,
    s = e1 ++ 88%N :: e2 ++ w ++ resto
    /\ todos espaco e1 /\ todos espaco e2 /\ digitos w
    /\ k resto (<[2%nat := w]> g) = Some m.
Proof.
  cbn [casa]. intros (e1 & r1 & -> & He1 & Hk)%estrela_inv.
  destruct r1 as [|c r2]; [done|].
  destruct (letra_X c) eqn:Ec; [|done]. apply letra_X_88 in Ec as ->.
  apply estrela_inv in Hk as (e2 & r3 & -> & He2 & Hk).
  apply mais_inv in Hk as (w & resto & -> & Hne & Hw & Hk).
  rewrite consumido_app in Hk.
  by exists e1, e2, w, resto.
Qed.

Lemma re_match_padrao_unicode (s : list N) :
  re_match padrao s =
    let K := fun s' (g' : grupos) =>
      casa resto_padrao s' (<[1%nat := consumido s s']> g')
           (fun _ g => Some g) in
    match mais digito s
            (fun s1 => match s1 with
                       | c :: s2 =>
                           if ponto_ou_virgula c
                           then mais digito s2 (fun s3 => K s3 ∅)
                           else None
                       | [] => None
                       end) with
    | Some x => Some x
    | None => mais digito s (fun s' => K s' ∅)
    end.
Proof. reflexivity. Qed.

(** Every match of the pattern at the start of [s] is an occurrence of
    <thickness>X<width>. *)
Lemma re_match_padrao_inv_unicode (s : list N) (m : grupos) :
  re_match padrao s = Some m -> padrao_no_inicio s.
Proof.
  rewrite re_match_padrao_unicode. cbv zeta.
  match goal with
  | |- match ?a with _ => _ end = _ -> _ => destruct a as [m'|] eqn:E1
  end.
  - intros _. apply mais_inv in E1 as (i & r1 & -> & Hi & Hid & Hk).
    destruct r1 as [|c r2]; [done|].
    destruct (ponto_ou_virgula c) eqn:Ec; [|done].
    apply mais_inv in Hk as (f & r3 & -> & Hf & Hfd & Hk).
    apply casa_resto_inv_unicode in Hk
      as (e1 & e2 & w & resto & -> & ? & ? & ? & _).
    eexists (i ++ c :: f), _, w, resto.
    split; [by apply td_fracao|].
    exists e1, e2. by rewrite <- app_assoc.
  - intros (i & r1 & -> & Hi & Hid & Hk)%mais_inv.
    apply casa_resto_inv_unicode in Hk
      as (e1 & e2 & w & resto & -> & ? & ? & ? & _).
    eexists i, _, w, resto. split; [by apply td_inteiro|].
    by exists e1, e2.
Qed.

(** At an occurrence whose width is not followed by a further digit,
    the match captures the thickness and the width texts. *)
Lemma re_match_padrao_ok (t w resto s : list N) (v : Q) :
  texto_decimal t v -> ocorrencia t w resto s -> nao_comeca digito resto ->
  re_match padrao s = Some (<[2%nat := w]> (<[1%nat := t]> ∅)).
Proof.
  intros Ht (e1 & e2 & -> & He1 & He2 & Hw) Hr.
  set (r1 := e1 ++ 88%N :: e2 ++ w ++ resto).
  assert (Hr1 : exists c r', r1 = c :: r' /\ digito c = false
                             /\ ponto_ou_virgula c = false).
  { unfold r1. destruct He1 as [|c e1 Hc _]; simpl.
    - eexists _, _. split; [done|]. by rewrite digito_de_ascii.
    - exists c, (e1 ++ 88%N :: e2 ++ w ++ resto).
      split; [done|]. split; [by apply espaco_nao_digito|].
      destruct (ponto_ou_virgula c) eqn:E; [|done].
      apply separador_nao_espaco in E. congruence. }
  destruct Hr1 as (c1 & r1' & Er1 & Hc1d & Hc1s).
  assert (Hnc : nao_comeca digito r1) by (by rewrite Er1).
  rewrite re_match_padrao_unicode. cbv zeta.
  destruct Ht as [i [Hne Hi]|i c f [Hne Hi] Hc [Hnf Hf]].
  - rewrite mais_app_det; [|done|done|done|].
    2:{ intros c r' Hc. by rewrite (digito_nao_separador c Hc). }
    rewrite Er1 at 1. rewrite Hc1s.
    rewrite mais_app_det; [|done|done|done|].
    2:{ intros c r' Hc. by apply casa_resto_digito. }
    rewrite consumido_app. by apply casa_resto_ok.
  - rewrite <- app_assoc. simpl app.
    rewrite mais_app_det; [|done|done|by apply separador_nao_digito|].
    2:{ intros c' r' Hc'. by rewrite (digito_nao_separador c' Hc'). }
    rewrite Hc.
    rewrite mais_app_det; [|done|done|done|].
    2:{ intros c' r' Hc'. by apply casa_resto_digito. }
    replace (i ++ c :: f ++ r1) with ((i ++ c :: f) ++ r1)
      by (by rewrite <- app_assoc).
    rewrite consumido_app. unfold r1. by rewrite casa_resto_ok.
Qed.

(** An occurrence can be read with the whole number as its width. *)
Lemma padrao_no_inicio_largura (s : list N) :
  padrao_no_inicio s ->
  exists t v w resto,
    texto_decimal t v /\ ocorrencia t w resto s /\ nao_comeca digito resto.
Proof.
  intros (t & v & w & resto & Ht & e1 & e2 & -> & He1 & He2 & Hne & Hw).
  destruct (separa_classe digito resto) as (d & r & -> & Hd & Hr).
  exists t, v, (w ++ d), r. split; [done|]. split; [|done].
  exists e1, e2. rewrite <- app_assoc. split; [done|].
  split; [done|]. split; [done|]. split; [by destruct w|].
  by apply Forall_app.
Qed.

Lemma padrao_no_inicio_casa (s : list N) :
  padrao_no_inicio s <-> is_Some (re_match padrao s).
Proof.
  split.
  - intros (t & v & w & resto & Ht & Ho & Hr)%padrao_no_inicio_largura.
    rewrite (re_match_padrao_ok _ _ _ _ _ Ht Ho Hr). eauto.
  - intros [m Hm]. by apply re_match_padrao_inv_unicode in Hm.
Qed.

End PadraoUnicode.

Section ConversoesUnicode.
Import Unicode.
Context `{Tabelas}.

Lemma so_digitos_true (l : list N) : digitos l -> so_digitos l = true.
Proof.
  intros [Hne Hl]. destruct l as [|c l]; [done|].
  unfold so_digitos. apply forallb_forall. intros x Hx.
  unfold todos in Hl. rewrite Forall_forall in Hl.
  by apply Hl, list_elem_of_In.
Qed.

Lemma digito_nao_46 (c : N) : digito c = true -> N.eqb c 46 = false.
Proof.
  intros Hc. destruct (N.eqb_spec c 46) as [->|]; [|done].
  by rewrite digito_de_ascii in Hc.
Qed.

Lemma digito_nao_44 (c : N) : digito c = true -> N.eqb c 44 = false.
Proof.
  intros Hc. destruct (N.eqb_spec c 44) as [->|]; [|done].
  by rewrite digito_de_ascii in Hc.
Qed.

Lemma replace_digitos (l : list N) : todos digito l -> replace 44 46 l = l.
Proof.
  induction 1 as [|c l Hc _ IH]; [done|].
  unfold replace in *. simpl. by rewrite IH, (digito_nao_44 c Hc).
Qed.

Lemma ate_ponto_digitos (l : list N) :
  todos digito l -> ate_ponto l = (l, None).
Proof.
  induction 1 as [|c l Hc _ IH]; [done|].
  simpl. by rewrite IH, (digito_nao_46 c Hc).
Qed.

Lemma ate_ponto_fracao (i f : list N) :
  todos digito i -> ate_ponto (i ++ 46%N :: f) = (i, Some f).
Proof.
  induction 1 as [|c l Hc _ IH]; [done|].
  simpl. by rewrite IH, (digito_nao_46 c Hc).
Qed.

Lemma replace_separador (c : N) :
  ponto_ou_virgula c = true -> (if N.eqb c 44 then 46%N else c) = 46%N.
Proof. by intros [->| ->]%separador_casos. Qed.

(** [float] of a thickness text, its comma replaced by a point, is the
    double nearest to its decimal value. *)
Lemma float_str_texto (t : list N) (v : Q) :
  texto_decimal t v -> float_str (replace 44 46 t) = Some (double v).
Proof.
  intros [i Hi|i c f Hi Hc Hf]; unfold float_str.
  - rewrite (replace_digitos i (proj2 Hi)), (ate_ponto_digitos i (proj2 Hi)).
    by rewrite so_digitos_true.
  - assert (replace 44 46 (i ++ c :: f) = i ++ 46%N :: f) as ->.
    { pose proof (replace_digitos i (proj2 Hi)) as E1.
      pose proof (replace_digitos f (proj2 Hf)) as E2.
      unfold replace in *. rewrite map_app. simpl.
      by rewrite E1, E2, replace_separador. }
    rewrite (ate_ponto_fracao i f (proj2 Hi)).
    by rewrite !so_digitos_true.
Qed.

(** [int] of a width text: its value, or [ValueError] when it has more
    digits than the interpreter accepts. *)
Lemma int_str_digitos (w : list N) :
  digitos w ->
  int_str w = if digitos_demais w then None else Some (valor_digitos w).
Proof.
  intros Hw. unfold int_str. rewrite so_digitos_true by done.
  by destruct (digitos_demais w).
Qed.

Lemma digitos_demais_curto (w : list N) :
  (length w <= 640)%nat -> digitos_demais w = false.
Proof.
  intros Hw. unfold digitos_demais.
  destruct int_max_str_digits_faixa as [->|Hl]; [done|].
  apply andb_false_iff. right. apply Nat.ltb_ge. lia.
Qed.

Lemma startswith_inv_unicode (p s : list N) :
  startswith p s = true -> exists post, s = p ++ post.
Proof.
  revert s. induction p as [|a p IH]; intros s; simpl; [eauto|].
  destruct s as [|b s]; [done|].
  intros [Hab Hp]%andb_true_iff. apply N.eqb_eq in Hab as ->.
  destruct (IH s Hp) as [post ->]. eauto.
Qed.

Lemma startswith_app (p s : list N) : startswith p (p ++ s) = true.
Proof.
  induction p as [|a p IH]; simpl; [done|]. by rewrite N.eqb_refl.
Qed.

Lemma contem_inv (sub s : list N) :
  contem sub s = true -> exists pre post, s = pre ++ sub ++ post.
Proof.
  induction s as [|c s IH]; simpl.
  - rewrite orb_false_r. intros [post ->]%startswith_inv_unicode.
    by exists [], post.
  - intros [Hs|Hs]%orb_true_iff.
    + apply startswith_inv_unicode in Hs as [post ->]. by exists [], post.
    + destruct (IH Hs) as (pre & post & ->). by exists (c :: pre), post.
Qed.

Lemma contem_app (sub pre post : list N) :
  contem sub (pre ++ sub ++ post) = true.
Proof.
  induction pre as [|c pre IH]; simpl.
  - destruct (sub ++ post) eqn:E; simpl; rewrite <- E, startswith_app; done.
  - by rewrite IH, orb_true_r.
Qed.

(** The test of line 14 decides [com_marca]. *)
Lemma com_marca_contem (s : list N) :
  com_marca s <-> contem marca_rebaixado (upper s) = true.
Proof.
  split.
  - intros (pre & post & ->). apply contem_app.
  - intros (pre & post & E)%contem_inv. by exists pre, post.
Qed.

Lemma upper_app (s1 s2 : list N) : upper (s1 ++ s2) = upper s1 ++ upper s2.
Proof. unfold upper. apply flat_map_app. Qed.

(** A part of the text whose upper case is the marker. *)
Lemma com_marca_parte (s pre m post : list N) :
  s = pre ++ m ++ post -> upper m = marca_rebaixado -> com_marca s.
Proof.
  intros -> Hm. exists (upper pre), (upper post).
  by rewrite !upper_app, Hm.
Qed.

Lemma upper_de_ascii (s : list N) :
  Forall (fun c => (c < 128)%N) s -> upper s = map toupper_ascii s.
Proof.
  induction 1 as [|c s Hc _ IH]; [done|].
  unfold upper in *. simpl. by rewrite IH, toupper_de_ascii.
Qed.

Lemma valor_digitos_de_ascii (s : list N) :
  Forall (fun c => (c < 128)%N) s ->
  valor_digitos s
  = fold_left (fun acc c => 10 * acc + default 0 (decimal_ascii c)) s 0.
Proof.
  unfold valor_digitos. intros Hs.
  assert (Ha : forall a,
             fold_left (fun acc c => 10 * acc + valor_digito c) s a
             = fold_left (fun acc c => 10 * acc + default 0 (decimal_ascii c)) s a);
    [|apply Ha].
  induction Hs as [|c s Hc _ IH]; intros a; [done|].
  simpl. rewrite IH. unfold valor_digito. by rewrite decimal_de_ascii.
Qed.

End ConversoesUnicode.

Section ParserUnicode.
Import Unicode.
Context `{Tabelas}.

Lemma parse_com_marca (s : list N) :
  com_marca s -> parse_dimensoes (Texto s) = (None, None).
Proof. intros Hs%com_marca_contem. unfold parse_dimensoes. by rewrite Hs. Qed.

Lemma sem_marca_contem (s : list N) :
  ~ com_marca s -> contem marca_rebaixado (upper s) = false.
Proof.
  intros Hs. destruct (contem _ _) eqn:E; [|done].
  by apply com_marca_contem in E.
Qed.

Lemma parse_sem_padrao_unicode (s : list N) :
  (forall i, ~ padrao_no_inicio (drop i s)) ->
  parse_dimensoes (Texto s) = (None, None).
Proof.
  intros Hn. unfold parse_dimensoes.
  destruct (contem _ _); [done|].
  rewrite re_search_None; [done|].
  intros i. destruct (re_match padrao _) as [m|] eqn:E; [|done].
  by apply re_match_padrao_inv_unicode, Hn in E.
Qed.

Lemma parse_primeira_ocorrencia (s pre t w resto : list N) (v : Q) :
  ~ com_marca s -> primeira_ocorrencia pre t w resto s v ->
  parse_dimensoes (Texto s)
  = if digitos_demais w then (None, None)
    else (Some (double v), Some (valor_digitos w)).
Proof.
  intros Hs (m & Hm & Ht & Ho & Hr & Hprim). unfold parse_dimensoes.
  rewrite (sem_marca_contem _ Hs), Hm.
  rewrite (re_search_primeiro padrao pre m _
             (re_match_padrao_ok t w resto m v Ht Ho Hr)).
  - rewrite lookup_insert_ne, !lookup_insert_eq by done.
    rewrite (float_str_texto t v Ht).
    destruct Ho as (? & ? & _ & _ & _ & Hw).
    rewrite (int_str_digitos w Hw). by destruct (digitos_demais w).
  - intros i Hi. rewrite <- Hm.
    destruct (re_match padrao _) as [m'|] eqn:E; [|done].
    by apply re_match_padrao_inv_unicode, Hprim in E.
Qed.

(** Either the pattern occurs nowhere, or it has a first occurrence. *)
Lemma ocorrencia_casos (s : list N) :
  (forall i, ~ padrao_no_inicio (drop i s))
  \/ exists pre t w resto v, primeira_ocorrencia pre t w resto s v.
Proof.
  destruct (re_search padrao s) as [m|] eqn:E.
  - right. apply re_search_Some in E as (pre & s' & -> & Hm & Hpre).
    apply re_match_padrao_inv_unicode, padrao_no_inicio_largura in Hm
      as (t & v & w & resto & Ht & Ho & Hr).
    exists pre, t, w, resto, v, s'. split; [done|].
    split; [done|]. split; [done|]. split; [done|].
    intros i Hi [m' Hm']%padrao_no_inicio_casa.
    by rewrite (Hpre i Hi) in Hm'.
  - left. intros i [m Hm]%padrao_no_inicio_casa.
    by rewrite (re_search_None_inv _ _ E i) in Hm.
Qed.

Lemma X_no_padrao_unicode (s : list N) : padrao_no_inicio s -> 88%N ∈ s.
Proof.
  intros (t & v & w & resto & _ & e1 & e2 & -> & _).
  rewrite !elem_of_app, elem_of_cons. auto.
Qed.

End ParserUnicode.

Section ExemplosUnicode.
Import Unicode.
Context `{Tabelas}.

Lemma digitos_de_ascii (l : list N) :
  l <> [] ->
  forallb (fun c => (c <? 128) && (48 <=? c) && (c <=? 57))%N l = true ->
  digitos l.
Proof.
  intros Hne Hl. split; [done|]. unfold todos.
  rewrite forallb_forall in Hl. apply Forall_forall. intros c Hc.
  apply list_elem_of_In, Hl in Hc.
  apply andb_true_iff in Hc as [[H1 H2]%andb_true_iff H3].
  apply N.ltb_lt in H1. rewrite (digito_de_ascii c H1). by rewrite H2, H3.
Qed.

Lemma espacos_de_ascii (l : list N) :
  forallb (fun c => (c <? 128)%N && isspace_ascii c) l = true ->
  todos espaco l.
Proof.
  intros Hl. unfold todos.
  rewrite forallb_forall in Hl. apply Forall_forall. intros c Hc.
  apply list_elem_of_In, Hl in Hc. apply andb_true_iff in Hc as [H1 H2].
  apply N.ltb_lt in H1. unfold espaco. by rewrite (isspace_de_ascii c H1).
Qed.

Lemma ascii_forallb (l : list N) :
  forallb (fun c => c <? 128)%N l = true -> Forall (fun c => (c < 128)%N) l.
Proof.
  intros Hl. rewrite forallb_forall in Hl. apply Forall_forall. intros c Hc.
  by apply N.ltb_lt, Hl, list_elem_of_In.
Qed.

Lemma sem_marca_de_ascii (s : list N) :
  forallb (fun c => c <? 128)%N s = true ->
  contem marca_rebaixado (map toupper_ascii s) = false ->
  ~ com_marca s.
Proof.
  intros Hs Hc Hm%com_marca_contem.
  rewrite (upper_de_ascii s (ascii_forallb s Hs)) in Hm. congruence.
Qed.

Lemma sem_X_sem_padrao (s : list N) :
  88%N ∉ s -> forall i, ~ padrao_no_inicio (drop i s).
Proof.
  intros Hs i Hi%X_no_padrao_unicode. apply Hs.
  rewrite <- (take_drop i s). apply elem_of_app. by right.
Qed.

Lemma exemplo_4_75 :
  parse_dimensoes (Texto (codigos "4,75X1250")) = (Some (Qred 4.75), Some 1250).
Proof.
  eassert (Hp : primeira_ocorrencia [] (codigos "4,75") (codigos "1250") []
                  (codigos "4,75X1250") _).
  { exists (codigos "4,75X1250"). split; [reflexivity|].
    split; [apply (td_fracao (codigos "4") 44 (codigos "75"));
            [by apply digitos_de_ascii|done|by apply digitos_de_ascii]|].
    split; [|split; [exact I|simpl; intros; lia]].
    exists [], []. split; [reflexivity|].
    split; [constructor|]. split; [constructor|]. by apply digitos_de_ascii. }
  rewrite (parse_primeira_ocorrencia _ _ _ _ _ _
             (sem_marca_de_ascii (codigos "4,75X1250") eq_refl eq_refl) Hp).
  rewrite digitos_demais_curto by (simpl; lia).
  rewrite !valor_digitos_de_ascii by (by apply ascii_forallb).
  vm_compute. reflexivity.
Qed.

Lemma exemplo_5_0 :
  parse_dimensoes (Texto (codigos "5.0 X 1000")) = (Some (Qred 5.0), Some 1000).
Proof.
  eassert (Hp : primeira_ocorrencia [] (codigos "5.0") (codigos "1000") []
                  (codigos "5.0 X 1000") _).
  { exists (codigos "5.0 X 1000"). split; [reflexivity|].
    split; [apply (td_fracao (codigos "5") 46 (codigos "0"));
            [by apply digitos_de_ascii|done|by apply digitos_de_ascii]|].
    split; [|split; [exact I|simpl; intros; lia]].
    exists (codigos " "), (codigos " "). split; [reflexivity|].
    split; [by apply espacos_de_ascii|]. split; [by apply espacos_de_ascii|]. by apply digitos_de_ascii. }
  rewrite (parse_primeira_ocorrencia _ _ _ _ _ _
             (sem_marca_de_ascii (codigos "5.0 X 1000") eq_refl eq_refl) Hp).
  rewrite digitos_demais_curto by (simpl; lia).
  rewrite !valor_digitos_de_ascii by (by apply ascii_forallb).
  vm_compute. reflexivity.
Qed.

(** [float] rounds: a thickness a hair above 4.75 is read as 4.75. *)
Lemma exemplo_arredondado :
  parse_dimensoes (Texto (codigos "4.7500000000000000001X1250")) = (Some (Qred 4.75), Some 1250).
Proof.
  eassert (Hp : primeira_ocorrencia [] (codigos "4.7500000000000000001") (codigos "1250") []
                  (codigos "4.7500000000000000001X1250") _).
  { exists (codigos "4.7500000000000000001X1250"). split; [reflexivity|].
    split; [apply (td_fracao (codigos "4") 46 (codigos "7500000000000000001"));
            [by apply digitos_de_ascii|done|by apply digitos_de_ascii]|].
    split; [|split; [exact I|simpl; intros; lia]].
    exists [], []. split; [reflexivity|].
    split; [constructor|]. split; [constructor|]. by apply digitos_de_ascii. }
  rewrite (parse_primeira_ocorrencia _ _ _ _ _ _
             (sem_marca_de_ascii (codigos "4.7500000000000000001X1250") eq_refl eq_refl) Hp).
  rewrite digitos_demais_curto by (simpl; lia).
  rewrite !valor_digitos_de_ascii by (by apply ascii_forallb).
  vm_compute. reflexivity.
Qed.

Lemma exemplo_rebaixada :
  parse_dimensoes (Texto (codigos "BOB rebaixada 4,75X1250")) = (None, None).
Proof.
  apply parse_com_marca.
  apply (com_marca_parte _ (codigos "BOB ") (codigos "rebaixad")
           (codigos "a 4,75X1250")); [reflexivity|].
  rewrite upper_de_ascii by (by apply ascii_forallb). reflexivity.
Qed.

Lemma exemplo_sem_medida :
  parse_dimensoes (Texto (codigos "BOBINA SEM MEDIDA")) = (None, None).
Proof.
  apply parse_sem_padrao_unicode, sem_X_sem_padrao.
  intros Hx. apply list_elem_of_In in Hx. simpl in Hx.
  repeat (destruct Hx as [Hx|Hx]; [discriminate Hx|]). exact Hx.
Qed.

End ExemplosUnicode.

Section TabelasExemplo.

Local Ltac comparacoes c :=
  repeat match goal with
  | |- context [(?a <=? ?b)%N] =>
      first [rewrite (proj2 (N.leb_le a b)) by lia
            |rewrite (proj2 (N.leb_gt a b)) by lia]
  | |- context [(?a =? ?b)%N] => rewrite (proj2 (N.eqb_neq a b)) by lia
  end.

Lemma decimal_exemplo_ascii (c : N) :
  (c < 128)%N -> Unicode.decimal_exemplo c = Unicode.decimal_ascii c.
Proof.
  intros Hc. unfold Unicode.decimal_exemplo, Unicode.decimal_ascii.
  destruct (_ && _); [done|].
  rewrite (proj2 (N.leb_gt 1632 c)) by lia. done.
Qed.

Lemma isspace_exemplo_ascii (c : N) :
  (c < 128)%N -> Unicode.isspace_exemplo c = Unicode.isspace_ascii c.
Proof.
  intros Hc. unfold Unicode.isspace_exemplo, Unicode.isspace_ascii.
  comparacoes c. simpl. by rewrite ?orb_false_r.
Qed.

Lemma toupper_exemplo_ascii (c : N) :
  (c < 128)%N -> Unicode.toupper_exemplo c = [Unicode.toupper_ascii c].
Proof.
  intros Hc. unfold Unicode.toupper_exemplo, Unicode.toupper_ascii.
  comparacoes c. by destruct (_ && _).
Qed.

Lemma decimal_exemplo_nao_isspace (c : N) (v : Z) :
  Unicode.decimal_exemplo c = Some v -> Unicode.isspace_exemplo c = false.
Proof.
  unfold Unicode.decimal_exemplo, Unicode.isspace_exemplo.
  destruct ((48 <=? c) && (c <=? 57))%N eqn:E1.
  - intros _. apply andb_true_iff in E1 as [H1%N.leb_le H2%N.leb_le].
    comparacoes c. done.
  - destruct ((1632 <=? c) && (c <=? 1641))%N eqn:E2; [|done].
    intros _. apply andb_true_iff in E2 as [H1%N.leb_le H2%N.leb_le].
    comparacoes c. done.
Qed.

End TabelasExemplo.

(** The excerpt satisfies what is asked of the tables, with the limit
    of 4300 digits that the interpreter starts with. *)
Lemma tabelas_exemplo : Unicode.Tabelas.
Proof.
  exact (Unicode.Build_Tabelas
           Unicode.decimal_exemplo Unicode.isspace_exemplo
           Unicode.toupper_exemplo 4300
           decimal_exemplo_ascii isspace_exemplo_ascii toupper_exemplo_ascii
           decimal_exemplo_nao_isspace
           (or_intror (proj1 (Nat.leb_le 640 4300) eq_refl))).
Defined.

(** C6: the parser gives (None, None) for an argument that is not text
    and for a text whose upper case contains the marker REBAIXAD, so
    whenever a part of the text reads as the marker in some letter
    case.  For any other text, either <thickness>X<width> occurs
    nowhere and the result is (None, None), or there is a first place
    where it occurs (thickness an integer or a decimal with point or
    comma, white space allowed around the X) and the result is the
    double nearest to the thickness with the value of the whole width
    number, unless the width has more digits than [int] accepts, which
    gives (None, None); no width of 640 digits or less is refused.  The
    digits and the white space are those of the interpreter's tables.
    No case raises: the function is total. *)
Theorem parse_dimensoes_correto `{Unicode.Tabelas} :
  Unicode.parse_dimensoes Unicode.NaoTexto = (None, None)
  /\ (forall s, Unicode.com_marca s ->
                Unicode.parse_dimensoes (Unicode.Texto s) = (None, None))
  /\ (forall s pre m post,
        s = pre ++ m ++ post -> Unicode.upper m = Unicode.marca_rebaixado ->
        Unicode.com_marca s)
  /\ (forall s pre t w resto v,
        ~ Unicode.com_marca s ->
        Unicode.primeira_ocorrencia pre t w resto s v ->
        Unicode.parse_dimensoes (Unicode.Texto s)
        = if Unicode.digitos_demais w then (None, None)
          else (Some (double v), Some (Unicode.valor_digitos w)))
  /\ (forall s, (forall i, ~ Unicode.padrao_no_inicio (drop i s)) ->
                Unicode.parse_dimensoes (Unicode.Texto s) = (None, None))
  /\ (forall s, Unicode.com_marca s
                \/ (~ Unicode.com_marca s
                    /\ ((forall i, ~ Unicode.padrao_no_inicio (drop i s))
                        \/ exists pre t w resto v,
                             Unicode.primeira_ocorrencia pre t w resto s v)))
  /\ (forall w, (length w <= 640)%nat -> Unicode.digitos_demais w = false)
  /\ Unicode.parse_dimensoes (Unicode.Texto (Unicode.codigos "4,75X1250"))
     = (Some (Qred 4.75), Some 1250)
  /\ Unicode.parse_dimensoes (Unicode.Texto (Unicode.codigos "5.0 X 1000"))
     = (Some (Qred 5.0), Some 1000)
  /\ Unicode.parse_dimensoes
       (Unicode.Texto (Unicode.codigos "BOB rebaixada 4,75X1250"))
     = (None, None)
  /\ Unicode.parse_dimensoes (Unicode.Texto (Unicode.codigos "BOBINA SEM MEDIDA"))
     = (None, None).
Proof.
  split; [done|].
  split; [apply parse_com_marca|].
  split; [apply com_marca_parte|].
  split; [apply parse_primeira_ocorrencia|].
  split; [apply parse_sem_padrao_unicode|].
  split.
  { intros s.
    destruct (Unicode.contem Unicode.marca_rebaixado (Unicode.upper s)) eqn:E.
    - left. by apply com_marca_contem.
    - right. split; [|apply ocorrencia_casos].
      intros Hm%com_marca_contem. congruence. }
  split; [apply digitos_demais_curto|].
  split; [apply exemplo_4_75|].
  split; [apply exemplo_5_0|].
  split; [apply exemplo_rebaixada|apply exemplo_sem_medida].
Qed.

Lemma parse_dimensoes_correto_witness :
  @Unicode.parse_dimensoes tabelas_exemplo
    (Unicode.Texto [52; 44; 55; 53; 160; 88; 160; 49; 50; 53; 48]%N)
  = (Some (Qred 4.75), Some 1250)
  /\ @Unicode.parse_dimensoes tabelas_exemplo
       (Unicode.Texto [1636; 44; 1639; 1637; 88; 1633; 1634; 1637; 1632]%N)
     = (Some (Qred 4.75), Some 1250)
  /\ @Unicode.parse_dimensoes tabelas_exemplo
       (Unicode.Texto (Unicode.codigos "reba" ++ [305%N]
                       ++ Unicode.codigos "xada 4,75X1250"))
     = (None, None)
  /\ @Unicode.parse_dimensoes tabelas_exemplo
       (Unicode.Texto (49%N :: 88%N :: replicate 4301 49%N))
     = (None, None).
Proof.
  destruct (@parse_dimensoes_correto tabelas_exemplo)
    as (_ & H2 & H3 & H4 & _).
  split; [|split; [|split]].
  - etransitivity;
      [apply (H4 _ [] [52; 44; 55; 53]%N [49; 50; 53; 48]%N [])|].
    + intros Hm%com_marca_contem. vm_compute in Hm. discriminate Hm.
    + exists [52; 44; 55; 53; 160; 88; 160; 49; 50; 53; 48]%N.
      split; [reflexivity|].
      split; [apply (Unicode.td_fracao [52]%N 44%N [55; 53]%N);
              [split; [discriminate|repeat constructor]|reflexivity
              |split; [discriminate|repeat constructor]]|].
      split; [|split; [exact I|simpl; intros; lia]].
      exists [160%N], [160%N]. split; [reflexivity|].
      split; [repeat constructor|]. split; [repeat constructor|].
      split; [discriminate|repeat constructor].
    + vm_compute. reflexivity.
  - etransitivity;
      [apply (H4 _ [] [1636; 44; 1639; 1637]%N [1633; 1634; 1637; 1632]%N [])|].
    + intros Hm%com_marca_contem. vm_compute in Hm. discriminate Hm.
    + exists [1636; 44; 1639; 1637; 88; 1633; 1634; 1637; 1632]%N.
      split; [reflexivity|].
      split; [apply (Unicode.td_fracao [1636]%N 44%N [1639; 1637]%N);
              [split; [discriminate|repeat constructor]|reflexivity
              |split; [discriminate|repeat constructor]]|].
      split; [|split; [exact I|simpl; intros; lia]].
      exists [], []. split; [reflexivity|].
      split; [constructor|]. split; [constructor|].
      split; [discriminate|repeat constructor].
    + vm_compute. reflexivity.
  - apply H2.
    apply (H3 _ [] (Unicode.codigos "reba" ++ [305%N] ++ Unicode.codigos "xad")
             (Unicode.codigos "a 4,75X1250")); reflexivity.
  - etransitivity;
      [apply (H4 _ [] [49%N] (replicate 4301 49%N) [])|].
    + intros Hm%com_marca_contem. vm_compute in Hm. discriminate Hm.
    + exists (49%N :: 88%N :: replicate 4301 49%N).
      split; [reflexivity|].
      split; [apply (Unicode.td_inteiro [49%N]);
              split; [discriminate|repeat constructor]|].
      split; [|split; [exact I|simpl; intros; lia]].
      exists [], []. split; [by rewrite app_nil_r|].
      split; [constructor|]. split; [constructor|].
      split; [discriminate|]. by apply Forall_replicate.
    + vm_compute. reflexivity.
Defined.

(** * Further properties of the code *)

(** ** Lot aggregator: what a lot record holds *)

Section AgregadorCampos.

Lemma campos_lote_do_grupo (DATA_ATUAL : Z) (id : string) (g : list LineItem) :
  let d := primeira_dimensao (map row_PRODUTO g) in
  let u := calcular_urgencia (min_datas (map row_DATA_DE_ENTREGA g)) DATA_ATUAL in
  PESO_TOTAL (lote_do_grupo DATA_ATUAL id g) = soma (map quantidade g)
  /\ DATA_ENTREGA (lote_do_grupo DATA_ATUAL id g)
     = min_datas (map row_DATA_DE_ENTREGA g)
  /\ SETUP (lote_do_grupo DATA_ATUAL id g) = determinar_setup d.1 d.2
  /\ ESPESSURA (lote_do_grupo DATA_ATUAL id g) = default 999%Q d.1
  /\ URGENCIA_NIVEL (lote_do_grupo DATA_ATUAL id g) = u.1
  /\ URGENCIA_NOME (lote_do_grupo DATA_ATUAL id g) = u.2.
Proof.
  unfold lote_do_grupo.
  destruct (primeira_dimensao _), (calcular_urgencia _ _). done.
Qed.

Lemma records_processar (DATA_ATUAL : Z) (df : list LineItem) :
  records (processar_dados_lote DATA_ATUAL df)
  = map (fun k => lote_do_grupo DATA_ATUAL k (linhas_do_lote k df))
        (chaves_ordenadas (map row_LOTE df)).
Proof. unfold processar_dados_lote, groupby. simpl. by rewrite map_map. Qed.

Lemma lote_do_agregador (DATA_ATUAL : Z) (df : list LineItem) (l : Lote) :
  In l (records (processar_dados_lote DATA_ATUAL df)) ->
  l = lote_do_grupo DATA_ATUAL (LOTE l) (linhas_do_lote (LOTE l) df)
  /\ In (LOTE l) (map row_LOTE df).
Proof.
  rewrite records_processar, in_map_iff. intros (k & <- & Hk).
  rewrite LOTE_lote_do_grupo. split; [done|]. by apply chaves_ordenadas_In.
Qed.

End AgregadorCampos.

(** ** Descriptor parser: shape of the result *)

Section ParserForma.

Lemma valor_digito_faixa (c : ascii) :
  digito c = true -> 0 <= valor_digito c <= 9.
Proof.
  unfold digito, valor_digito.
  intros [H1 H2]%andb_true_iff. apply N.leb_le in H1, H2. lia.
Qed.

Lemma valor_digitos_acc (s : list ascii) (acc : Z) :
  forallb digito s = true -> 0 <= acc ->
  0 <= fold_left (fun a c => 10 * a + valor_digito c) s acc.
Proof.
  revert acc. induction s as [|c s IH]; intros acc H Hacc; simpl; [done|].
  simpl in H. apply andb_true_iff in H as [Hc Hs].
  apply IH; [done|]. pose proof (valor_digito_faixa c Hc). lia.
Qed.

Lemma so_digitos_forallb (s : list ascii) :
  so_digitos s = true -> forallb digito s = true.
Proof. by destruct s. Qed.

Lemma valor_digitos_nao_negativo (s : list ascii) :
  so_digitos s = true -> 0 <= valor_digitos s.
Proof.
  intros H. apply valor_digitos_acc; [by apply so_digitos_forallb|done].
Qed.

Lemma float_str_nao_negativo (s : list ascii) (e : Q) :
  float_str s = Some e -> (0 <= e)%Q.
Proof.
  unfold float_str. destruct (ate_ponto s) as [i [f|]].
  - destruct (so_digitos i) eqn:Ei; [|done].
    destruct (so_digitos f) eqn:Ef; [|done]. simpl. intros [= <-].
    pose proof (valor_digitos_nao_negativo i Ei).
    pose proof (valor_digitos_nao_negativo f Ef).
    unfold Qle. simpl. nia.
  - destruct (so_digitos i) eqn:Ei; [|done]. intros [= <-].
    pose proof (valor_digitos_nao_negativo i Ei).
    unfold Qle. simpl. lia.
Qed.

Lemma int_str_nao_negativo (s : list ascii) (w : Z) :
  int_str s = Some w -> 0 <= w.
Proof.
  unfold int_str. destruct (so_digitos s) eqn:E; [|done].
  intros [= <-]. by apply valor_digitos_nao_negativo.
Qed.

Lemma parse_dimensoes_casos (d : descricao) :
  parse_dimensoes d = (None, None)
  \/ exists e w, parse_dimensoes d = (Some e, Some w)
                 /\ (0 <= e)%Q /\ 0 <= w.
Proof.
  destruct d as [s|]; [|by left]. unfold parse_dimensoes.
  destruct (contem _ _); [by left|].
  destruct (re_search _ _) as [m|]; [|by left].
  destruct (m !! 1%nat) as [g1|]; [|by left].
  destruct (m !! 2%nat) as [g2|]; [|by left].
  destruct (float_str _) as [e|] eqn:Ee; [|by left].
  destruct (int_str _) as [w|] eqn:Ew; [|by left].
  right. exists e, w. split; [done|].
  split; [by eapply float_str_nao_negativo|by eapply int_str_nao_negativo].
Qed.

(** Thickness and width come together or not at all, and neither is
    ever negative. *)
Theorem parse_dimensoes_formas (d : descricao) :
  parse_dimensoes d = (None, None)
  \/ exists e w, parse_dimensoes d = (Some e, Some w)
                 /\ (0 <= e)%Q /\ 0 <= w.
Proof. apply parse_dimensoes_casos. Qed.

End ParserForma.

(** ** Lot aggregator: due date and setup of a lot *)

Section AgregadorDatas.

Local Abbreviation passo_min :=
  (fun (acc d : option Z) =>
     match acc, d with
     | Some a, Some b => Some (Z.min a b)
     | None, _ => d
     | _, None => acc
     end).

Lemma min_fold_None (l : list (option Z)) (acc : option Z) :
  fold_left passo_min l acc = None <-> acc = None /\ forall d, In d l -> d = None.
Proof.
  revert acc. induction l as [|d l IH]; intros acc; simpl.
  - intuition.
  - rewrite IH. destruct acc as [a|], d as [b|]; split.
    all: try (intros [H _]; discriminate H).
    all: try (intros [H1 H2]; try discriminate H1;
              exfalso; specialize (H2 _ (or_introl eq_refl)); discriminate H2).
    + intros [_ H]. split; [done|]. intros d [<-|Hd]; auto.
    + intros [_ H]. split; [done|]. intros d Hd. apply H. by right.
Qed.

Lemma min_fold_Some (l : list (option Z)) (acc : option Z) (m : Z) :
  fold_left passo_min l acc = Some m ->
  (acc = Some m \/ In (Some m) l)
  /\ (forall a, acc = Some a -> m <= a)
  /\ (forall d, In (Some d) l -> m <= d).
Proof.
  revert acc. induction l as [|d l IH]; intros acc; simpl.
  - intros ->. split; [by left|]. split; [|by intros ? []].
    intros a [= ->]. lia.
  - intros (H1 & H2 & H3)%IH.
    destruct acc as [a|], d as [b|].
    + specialize (H2 _ eq_refl). split; [|split].
      * destruct H1 as [[= H1]|H1]; [|by right; right].
        destruct (Z.min_spec a b) as [[_ E]|[_ E]]; rewrite E in H1; subst;
          [by left|by right; left].
      * intros ? [= <-]. lia.
      * intros d [[= <-]|Hd]; [lia|by apply H3].
    + split; [|split]; [destruct H1; auto|done|].
      intros d [Hd|Hd]; [done|by apply H3].
    + split; [|split].
      * destruct H1 as [H1|H1]; [right; by left|by right; right].
      * done.
      * intros d [[= <-]|Hd]; [by apply H2|by apply H3].
    + split; [|split]; [destruct H1 as [H1|H1]; [done|by right; right]|done|].
      intros d [Hd|Hd]; [done|by apply H3].
Qed.

Lemma In_datas_do_lote (id : string) (df : list LineItem) (d : option Z) :
  In d (map row_DATA_DE_ENTREGA (linhas_do_lote id df))
  <-> exists r, In r df /\ row_LOTE r = id /\ row_DATA_DE_ENTREGA r = d.
Proof.
  rewrite in_map_iff. split.
  - intros (r & <- & Hr). apply list_elem_of_In, list_elem_of_filter in Hr as [? ?].
    exists r. by rewrite <- list_elem_of_In.
  - intros (r & Hr & Hid & <-). exists r. split; [done|].
    apply list_elem_of_In, list_elem_of_filter. by rewrite list_elem_of_In.
Qed.

(** The due date of a lot is the earliest date of its rows: it is
    missing exactly when every row of the lot has no date, and otherwise
    it is the date of one of the rows and no row of the lot is due
    earlier. *)
Theorem agregador_data_entrega (DATA_ATUAL : Z) (df : list LineItem) (l : Lote) :
  In l (records (processar_dados_lote DATA_ATUAL df)) ->
  (DATA_ENTREGA l = None
   <-> forall r, In r df -> row_LOTE r = LOTE l -> row_DATA_DE_ENTREGA r = None)
  /\ (forall m, DATA_ENTREGA l = Some m ->
        (exists r, In r df /\ row_LOTE r = LOTE l
                   /\ row_DATA_DE_ENTREGA r = Some m)
        /\ (forall r d, In r df -> row_LOTE r = LOTE l ->
                        row_DATA_DE_ENTREGA r = Some d -> m <= d)).
Proof.
  intros [Hl _]%lote_do_agregador.
  pose proof (campos_lote_do_grupo DATA_ATUAL (LOTE l)
                (linhas_do_lote (LOTE l) df)) as (_ & Hd & _).
  rewrite <- Hl in Hd. rewrite Hd. unfold min_datas. split.
  - rewrite min_fold_None. split.
    + intros [_ H] r Hr Hid. apply H, In_datas_do_lote. eauto.
    + intros H. split; [done|]. intros d (r & Hr & Hid & <-)%In_datas_do_lote.
      by apply H.
  - intros m ([H1|H1] & _ & H3)%min_fold_Some; [done|]. split.
    + by apply In_datas_do_lote in H1.
    + intros r d Hr Hid Hdr. apply H3, In_datas_do_lote. eauto.
Qed.

Lemma agregador_data_entrega_witness :
  DATA_ENTREGA (lote_do_grupo 0 "A" (linhas_do_lote "A" linhas_exemplo)) = None.
Proof.
  apply (agregador_data_entrega 0 linhas_exemplo
           (lote_do_grupo 0 "A" (linhas_do_lote "A" linhas_exemplo))).
  - left. reflexivity.
  - intros r Hr _. simpl in Hr.
    destruct Hr as [<-|[<-|[<-|[]]]]; reflexivity.
Defined.

End AgregadorDatas.

Section AgregadorSetup.

Lemma primeira_dimensao_formas (ps : list descricao) :
  (primeira_dimensao ps = (None, None)
   /\ forall p, In p ps -> parse_dimensoes p = (None, None))
  \/ exists pre p post e w,
       ps = pre ++ p :: post
       /\ (forall q, In q pre -> parse_dimensoes q = (None, None))
       /\ parse_dimensoes p = (Some e, Some w)
       /\ primeira_dimensao ps = (Some e, Some w).
Proof.
  induction ps as [|p ps IH]; [left; by split|].
  simpl. destruct (parse_dimensoes_casos p) as [Hp|(e & w & Hp & _)].
  - rewrite Hp. destruct IH as [[H1 H2]|(pre & q & post & e & w & -> & H1 & H2 & H3)].
    + left. split; [done|]. intros q [<-|Hq]; auto.
    + right. exists (p :: pre), q, post, e, w.
      split; [done|]. split; [|done]. intros r [<-|Hr]; auto.
  - rewrite Hp. right. exists [], p, ps, e, w. by repeat split.
Qed.

Lemma determinar_setup_definido (e : Q) (w : Z) :
  determinar_setup (Some e) (Some w) <> "SETUP_INDEFINIDO".
Proof.
  unfold determinar_setup.
  destruct (plaina_casos e) as [[_ ->]|[_ ->]]; discriminate.
Qed.

(** The setup of a lot is the undefined key exactly when none of its
    descriptors parses, and then its thickness is the filler 999;
    otherwise setup and thickness are those of the first row of the lot,
    in input order, whose descriptor parses. *)
Theorem agregador_setup (DATA_ATUAL : Z) (df : list LineItem) (l : Lote) :
  In l (records (processar_dados_lote DATA_ATUAL df)) ->
  let linhas := linhas_do_lote (LOTE l) df in
  (SETUP l = "SETUP_INDEFINIDO" <-> forall r, In r linhas -> nao_parseia r)
  /\ ((forall r, In r linhas -> nao_parseia r) -> ESPESSURA l = 999%Q)
  /\ (forall pre r post e w,
        linhas = pre ++ r :: post ->
        (forall r', In r' pre -> nao_parseia r') ->
        parse_dimensoes (row_PRODUTO r) = (Some e, Some w) ->
        SETUP l = determinar_setup (Some e) (Some w) /\ ESPESSURA l = e).
Proof.
  intros Hin linhas. apply lote_do_agregador in Hin as [Hl _].
  pose proof (campos_lote_do_grupo DATA_ATUAL (LOTE l)
                (linhas_do_lote (LOTE l) df)) as (_ & _ & Hs & He & _).
  rewrite <- Hl in Hs, He. cbv zeta in Hs, He. clear Hl.
  fold linhas in Hs, He. clearbody linhas.
  destruct (primeira_dimensao_formas (map row_PRODUTO linhas))
    as [[Hd Hn]|(pre & p & post & e & w & Hps & Hpre & Hp & Hd)];
    rewrite Hd in Hs, He; simpl in Hs, He.
  - assert (Hnp : forall r, In r linhas -> nao_parseia r).
    { intros r Hr. apply Hn, in_map, Hr. }
    split; [by split|]. split; [done|].
    intros pre r post e w Hlin _ Hr. exfalso.
    assert (Hin : In r linhas) by (rewrite Hlin; apply in_elt).
    apply Hnp in Hin. unfold nao_parseia in Hin. congruence.
  - apply map_eq_app in Hps as (lpre & lr & Hlin & <- & Hr).
    destruct lr as [|r lpost]; [done|]. injection Hr as <- _.
    split; [|split].
    + split.
      * rewrite Hs. intros H. by apply determinar_setup_definido in H.
      * intros H. assert (Hin : In r linhas) by (rewrite Hlin; apply in_elt).
        apply H in Hin. unfold nao_parseia in Hin. congruence.
    + intros H. assert (Hin : In r linhas) by (rewrite Hlin; apply in_elt).
      apply H in Hin. unfold nao_parseia in Hin. congruence.
    + intros pre' r' post' e' w' Hlin' Hpre' Hr'.
      assert (E : lpre = pre' /\ r = r').
      { clear -Hlin Hlin' Hpre Hpre' Hp Hr'. rewrite Hlin in Hlin'. clear Hlin.
        revert pre' Hlin' Hpre'.
        induction lpre as [|a lpre IH]; intros [|b pre'] Hlin' Hpre'.
        - by injection Hlin' as ->.
        - injection Hlin' as -> _.
          specialize (Hpre' b (or_introl eq_refl)).
          unfold nao_parseia in Hpre'. congruence.
        - injection Hlin' as -> _.
          specialize (Hpre (row_PRODUTO r')). simpl in Hpre.
          rewrite Hpre in Hr' by (by left). done.
        - injection Hlin' as -> Hlin'.
          destruct (IH (fun q Hq => Hpre q (or_intror Hq)) pre' Hlin'
                       (fun q Hq => Hpre' q (or_intror Hq))) as [-> ->].
          done. }
      destruct E as [_ <-]. rewrite Hp in Hr'. injection Hr' as <- <-.
      by rewrite Hs, He.
Qed.

Lemma agregador_setup_witness :
  SETUP (lote_do_grupo 0 "B" (linhas_do_lote "B" linhas_exemplo))
  = determinar_setup (Some 4.75%Q) (Some 1250).
Proof.
  pose proof (agregador_setup 0 linhas_exemplo
                (lote_do_grupo 0 "B" (linhas_do_lote "B" linhas_exemplo))
                ltac:(right; left; reflexivity)) as H.
  cbv zeta in H. destruct H as (_ & _ & H).
  apply (H [] (linha_exemplo "B") [linha_exemplo "B"]).
  - reflexivity.
  - intros r' [].
  - vm_compute. reflexivity.
Defined.

End AgregadorSetup.

(** ** Urgency classifier: order *)

Section UrgenciaOrdem.

(** The tier is between 1 and 5, a lot due earlier is never in a less
    urgent tier than a lot due later, and no date is less urgent than
    a missing one. *)
Theorem calcular_urgencia_monotona (data_atual : Z) :
  (forall d, 1 <= (calcular_urgencia d data_atual).1 <= 5)
  /\ (forall e1 e2, e1 <= e2 ->
        (calcular_urgencia (Some e1) data_atual).1
        <= (calcular_urgencia (Some e2) data_atual).1)
  /\ (forall d, (calcular_urgencia d data_atual).1
                <= (calcular_urgencia None data_atual).1).
Proof.
  assert (Hf : forall e, 1 <= (calcular_urgencia (Some e) data_atual).1 <= 5).
  { intros e. rewrite urgencia_dias. cbv zeta.
    repeat match goal with
      | |- context [?a <? ?b] => destruct (Z.ltb_spec a b)
      | |- context [?a <=? ?b] => destruct (Z.leb_spec a b)
      end; simpl; lia. }
  split; [intros [e|]; [apply Hf|simpl; lia]|].
  split; [|intros [e|]; [apply Hf|simpl; lia]].
  intros e1 e2 He. rewrite !urgencia_dias. cbv zeta.
  assert (Hd : days (data_atual - e2) <= days (data_atual - e1)).
  { unfold days. apply Z.div_le_mono; [unfold NS_POR_DIA|]; lia. }
  repeat match goal with
    | |- context [?a <? ?b] => destruct (Z.ltb_spec a b)
    | |- context [?a <=? ?b] => destruct (Z.leb_spec a b)
    end; simpl; lia.
Qed.

Lemma calcular_urgencia_monotona_witness :
  (calcular_urgencia (Some 0) (20 * NS_POR_DIA)).1
  <= (calcular_urgencia (Some (18 * NS_POR_DIA)) (20 * NS_POR_DIA)).1.
Proof.
  apply (calcular_urgencia_monotona (20 * NS_POR_DIA)). vm_compute. discriminate.
Defined.

End UrgenciaOrdem.

(** ** Sequencer on the output of the aggregator *)

Section Encadeamento.

Lemma todas_colunas (c : Coluna) (x : Lote) (l : list Lote) :
  c ∈ columns (pd_DataFrame (x :: l)).
Proof. apply list_elem_of_In. destruct c; simpl; tauto. Qed.

Lemma processar_nao_vazio (DATA_ATUAL : Z) (df : list LineItem) :
  df <> [] ->
  exists x l, processar_dados_lote DATA_ATUAL df = pd_DataFrame (x :: l).
Proof.
  intros Hne. unfold processar_dados_lote.
  destruct (map _ (groupby df)) as [|x l] eqn:E; [|eauto].
  exfalso. apply map_eq_nil in E. unfold groupby in E. apply map_eq_nil in E.
  destruct df as [|r df]; [done|].
  assert (H : In (row_LOTE r) (chaves_ordenadas (map row_LOTE (r :: df))))
    by (apply chaves_ordenadas_In; by left).
  by rewrite E in H.
Qed.

Lemma laco_batches_nao_vazio (l : list Lote) (estado : list Batch * Q * string) :
  laco_batches l estado <> [].
Proof.
  unfold laco_batches. destruct (fold_left _ _ _) as [[bs w] s].
  by destruct bs.
Qed.

(** For rows that are not empty the sequencer raises nothing, whatever
    columns are given as priorities: it returns a sequence with exactly
    one lot per lot id of the rows and at least one batch. *)
Theorem sequencia_de_linhas (DATA_ATUAL : Z) (df : list LineItem)
    (p1 p2 p3 : Coluna) :
  df <> [] ->
  exists seq batches,
    otimizar_sequencia (processar_dados_lote DATA_ATUAL df) (p1, p2, p3)
    = Ok (seq, batches)
    /\ seq <> [] /\ batches <> []
    /\ NoDup (map LOTE seq)
    /\ (forall id, In id (map LOTE seq) <-> In id (map row_LOTE df)).
Proof.
  intros Hne.
  destruct (processar_nao_vazio DATA_ATUAL df Hne) as (x & l & E).
  destruct (otimizar_sequencia_colunas (processar_dados_lote DATA_ATUAL df)
              p1 p2 p3) as (seq & batches & H).
  { intros c _. rewrite E. apply todas_colunas. }
  exists seq, batches. split; [done|].
  pose proof (otimizar_sequencia_Ok _ _ _ _ _ _ H) as [Hs Hb].
  assert (Hperm : Permutation seq (records (processar_dados_lote DATA_ATUAL df)))
    by (rewrite Hs; apply ordenar_perm).
  pose proof (ids_do_agregador DATA_ATUAL df) as (Hnd & Hin & _).
  assert (Hseq : seq <> []).
  { intros ->. rewrite E in Hperm. by apply Permutation_nil in Hperm. }
  split; [done|]. split.
  { destruct seq; [done|]. rewrite Hb. apply laco_batches_nao_vazio. }
  split.
  - by rewrite (Permutation_map LOTE Hperm).
  - intros id. rewrite <- Hin.
    split; apply Permutation_in; [|symmetry]; by apply Permutation_map.
Qed.

Lemma sequencia_de_linhas_witness :
  exists seq batches,
    otimizar_sequencia (processar_dados_lote 0 linhas_exemplo)
      prioridades_exemplo = Ok (seq, batches)
    /\ seq <> [].
Proof.
  destruct (sequencia_de_linhas 0 linhas_exemplo
              C_URGENCIA_NIVEL C_SETUP C_ESPESSURA)
    as (seq & batches & H & Hne & _).
  - discriminate.
  - exists seq, batches. split; [exact H|exact Hne].
Defined.

Lemma ordenar_ordenada {A : Type} (cmp : A -> A -> comparison)
    `{!Comparador cmp} (l : list A) :
  StronglySorted (nao_depois cmp) l -> ordenar cmp l = l.
Proof.
  intros Hs. apply (ordenacao_estavel_unica cmp); [by apply ordenar_sorted|done|].
  intros a. by apply ordenar_estavel.
Qed.

(** Sequencing is idempotent: the frame built from a sequence, given to
    the sequencer with the same priorities, comes back as the same
    sequence with the same batches. *)
Theorem otimizar_sequencia_idempotente (df : DataFrame) (p1 p2 p3 : Coluna)
    (seq : list Lote) (batches : list Batch) :
  otimizar_sequencia df (p1, p2, p3) = Ok (seq, batches) ->
  seq <> [] ->
  otimizar_sequencia (pd_DataFrame seq) (p1, p2, p3) = Ok (seq, batches).
Proof.
  intros H Hne. apply otimizar_sequencia_Ok in H as [Hs Hb].
  destruct seq as [|x rest]; [done|].
  unfold otimizar_sequencia.
  rewrite (sort_values_colunas (pd_DataFrame (x :: rest)))
    by (intros c _; apply todas_colunas).
  cbn [records pd_DataFrame].
  rewrite (ordenar_ordenada (compara_por [p1; p2; p3; C_DATA_ENTREGA])).
  - by rewrite Hb.
  - rewrite Hs. apply ordenar_sorted, _.
Qed.

Lemma otimizar_sequencia_idempotente_witness :
  exists batches,
    otimizar_sequencia (pd_DataFrame lotes_exemplo) prioridades_exemplo
    = Ok (lotes_exemplo, batches).
Proof.
  eexists.
  apply (otimizar_sequencia_idempotente
           {| columns := [C_URGENCIA_NIVEL; C_SETUP; C_ESPESSURA; C_DATA_ENTREGA];
              records := lotes_exemplo |}
           C_URGENCIA_NIVEL C_SETUP C_ESPESSURA).
  - vm_compute. reflexivity.
  - discriminate.
Defined.

End Encadeamento.

(** ** Setup as first priority *)

Section SetupPrimeiro.

Local Abbreviation setup_nao_depois :=
  (fun a b : Lote => String.compare (SETUP a) (SETUP b) <> Gt).

Lemma sorted_por_setup (p2 p3 : Coluna) (seq : list Lote) :
  StronglySorted
    (nao_depois (compara_por [C_SETUP; p2; p3; C_DATA_ENTREGA])) seq ->
  StronglySorted setup_nao_depois seq.
Proof.
  induction 1 as [|x l _ IH Hall]; constructor; [done|].
  eapply Forall_impl; [exact Hall|].
  intros y Hy E. apply Hy. simpl. unfold compara_col at 1. by rewrite E.
Qed.

Lemma trechos_chaves_sorted (s : string) (cur l : list Lote) :
  cur <> [] -> Forall (fun y => SETUP y = s) cur ->
  StronglySorted setup_nao_depois (cur ++ l) ->
  StronglySorted antes (map fst (trechos s cur l)).
Proof.
  revert s cur. induction l as [|x l IH]; intros s cur Hne Hc Hs; simpl.
  - repeat constructor.
  - destruct (decide (SETUP x = s)) as [E|E].
    + apply IH; [by destruct cur| |by rewrite <- app_assoc].
      apply Forall_app. split; [done|]. by constructor.
    + assert (Hsx : antes s (SETUP x)).
      { destruct cur as [|c cur]; [done|].
        assert (Hcx : setup_nao_depois c x).
        { apply (StronglySorted_app_1_elem_of _ _ _ _ _ Hs);
            apply list_elem_of_here. }
        apply Forall_cons in Hc as [Hc _]. simpl in Hcx. rewrite Hc in Hcx.
        unfold antes. destruct (String.compare s (SETUP x)) eqn:Ec; [|done|done].
        apply String.compare_eq_iff in Ec. congruence. }
      assert (Ht : StronglySorted antes (map fst (trechos (SETUP x) [x] l))).
      { apply IH; [done|by constructor|].
        by apply StronglySorted_app_1_r in Hs. }
      destruct (trechos_cabeca (SETUP x) [x] l) as [t Et].
      rewrite Et in Ht |- *. simpl in *.
      inversion Ht as [|? ? Ht' Hall]; subst.
      constructor; [done|]. constructor; [done|].
      eapply Forall_impl; [exact Hall|].
      intros k Hk. by eapply string_compare_lt_trans.
Qed.

Lemma chaves_dos_trechos (s : string) (cur l : list Lote) (k : string) :
  cur <> [] -> Forall (fun y => SETUP y = s) cur ->
  In k (map fst (trechos s cur l)) <-> In k (map SETUP (cur ++ l)).
Proof.
  intros Hne Hc.
  pose proof (trechos_uniformes s cur l Hc) as Hu.
  pose proof (trechos_nao_vazios s cur l Hne) as Hn.
  pose proof (trechos_concat s cur l) as Hcat.
  rewrite Forall_forall in Hu, Hn. rewrite !in_map_iff. split.
  - intros ([k' tr] & <- & Ht). apply list_elem_of_In in Ht.
    specialize (Hu _ Ht). specialize (Hn _ Ht). simpl in *.
    destruct tr as [|y tr]; [done|]. apply Forall_cons in Hu as [Hy _].
    exists y. split; [done|]. rewrite <- Hcat. apply in_concat.
    exists (y :: tr). split; [|by left].
    apply in_map_iff. exists (k', y :: tr). by rewrite <- list_elem_of_In.
  - intros (y & <- & Hy). rewrite <- Hcat in Hy.
    apply in_concat in Hy as (tr & Htr & Hy).
    apply in_map_iff in Htr as ([k' tr'] & <- & Ht). simpl in *.
    exists (k', tr'). split; [|done]. simpl.
    apply list_elem_of_In in Ht. specialize (Hu _ Ht). simpl in Hu.
    rewrite Forall_forall in Hu. symmetry. by apply Hu, list_elem_of_In.
Qed.

(** With the setup as first priority no setup key has two batches: the
    keys of the batches are pairwise different, in ascending order, and
    they are the keys of the lots. *)
Theorem setup_primeiro_um_batch_por_chave (df : DataFrame) (p2 p3 : Coluna)
    (seq : list Lote) (batches : list Batch) :
  otimizar_sequencia df (C_SETUP, p2, p3) = Ok (seq, batches) ->
  NoDup (map setup batches)
  /\ StronglySorted (fun a b => String.compare a b = Lt) (map setup batches)
  /\ (forall k, In k (map setup batches) <-> In k (map SETUP seq)).
Proof.
  intros H. pose proof (otimizar_sequencia_Ok _ _ _ _ _ _ H) as [Hs Hb].
  destruct seq as [|x rest].
  { subst batches. split; [constructor|]. split; [constructor|done]. }
  assert (Hsort : StronglySorted setup_nao_depois (x :: rest)).
  { apply (sorted_por_setup p2 p3). rewrite Hs. apply ordenar_sorted, _. }
  change 0%Q with (soma (map PESO_TOTAL [])) in Hb.
  rewrite laco_batches_trechos in Hb. simpl in Hb.
  rewrite decide_True in Hb by done.
  assert (Hk : map setup batches = map fst (trechos (SETUP x) [x] rest)).
  { rewrite Hb, map_map. by apply map_ext. }
  rewrite Hk.
  assert (Hord : StronglySorted antes (map fst (trechos (SETUP x) [x] rest))).
  { apply trechos_chaves_sorted; [done|by constructor|done]. }
  split; [by apply sorted_NoDup|]. split; [done|].
  intros k. apply (chaves_dos_trechos (SETUP x) [x] rest k); [done|by constructor].
Qed.

Lemma setup_primeiro_um_batch_por_chave_witness :
  exists batches, NoDup (map setup batches) /\ length batches = 2%nat.
Proof.
  eexists. split.
  - eapply (setup_primeiro_um_batch_por_chave (pd_DataFrame lotes_exemplo)
              C_URGENCIA_NIVEL C_ESPESSURA).
    vm_compute. reflexivity.
  - reflexivity.
Defined.

End SetupPrimeiro.

(** ** Metrics of a sequence *)

Section MetricasTeoremas.

Lemma length_trechos (s : string) (cur l : list Lote) :
  length (trechos s cur l) = S (mudancas s l).
Proof.
  revert s cur. induction l as [|x l IH]; intros s cur; simpl; [done|].
  destruct (decide _); simpl; by rewrite IH.
Qed.

Lemma mudancas_le (s : string) (l : list Lote) : (mudancas s l <= length l)%nat.
Proof.
  revert s. induction l as [|x l IH]; intros s; simpl; [done|].
  destruct (decide _); [specialize (IH s)|specialize (IH (SETUP x))]; lia.
Qed.

(** For a sequence that is not empty the metrics exist; the number of
    setup changes is the number of lots whose setup key differs from
    that of the lot before, the number of batches is one more and at
    most the number of lots, and the batches on target are counted
    among the batches. *)
Theorem metricas_da_sequencia (df : DataFrame) (p1 p2 p3 : Coluna)
    (x : Lote) (rest : list Lote) (batches : list Batch) :
  otimizar_sequencia df (p1, p2, p3) = Ok (x :: rest, batches) ->
  exists m,
    calcular_metricas (x :: rest) batches = Some m
    /\ num_batches m = Z.of_nat (length batches)
    /\ total_mudancas_setup m = Z.of_nat (mudancas (SETUP x) rest)
    /\ num_batches m = total_mudancas_setup m + 1
    /\ num_batches m <= Z.of_nat (length (x :: rest))
    /\ 0 <= batches_na_meta m <= num_batches m.
Proof.
  intros H. apply otimizar_sequencia_Ok in H as [_ Hb].
  change 0%Q with (soma (map PESO_TOTAL [])) in Hb.
  rewrite laco_batches_trechos in Hb. simpl in Hb.
  rewrite decide_True in Hb by done.
  assert (Hlen : length batches = S (mudancas (SETUP x) rest)).
  { by rewrite Hb, length_map, length_trechos. }
  pose proof (mudancas_le (SETUP x) rest) as Hle.
  clear Hb. destruct batches as [|b bs]; [done|].
  set (n := Z.of_nat (length (b :: bs))) in *.
  assert (Hn : 0 < n) by (unfold n; simpl length; lia).
  assert (Hnb : (0 <? n) = true) by (by apply Z.ltb_lt).
  set (k := Z.of_nat (length (filter (fun b0 => atingiu_meta b0 = true) (b :: bs)))).
  assert (Hk : 0 <= k <= n).
  { unfold k, n. pose proof (length_filter (fun b0 => atingiu_meta b0 = true) (b :: bs)).
    lia. }
  eexists. split; [reflexivity|].
  cbn [num_batches total_mudancas_setup batches_na_meta].
  fold n. fold k. rewrite Hnb.
  split; [done|].
  split; [unfold n; rewrite Hlen; lia|].
  split; [lia|].
  split; [unfold n; rewrite Hlen; simpl length; lia|].
  done.
Qed.

Lemma metricas_da_sequencia_witness :
  exists m,
    calcular_metricas lotes_exemplo
      [ {| setup := "A"; peso := 80; atingiu_meta := false |};
        {| setup := "B"; peso := 130; atingiu_meta := true |};
        {| setup := "A"; peso := 10; atingiu_meta := false |} ] = Some m
    /\ total_mudancas_setup m = 2.
Proof.
  destruct (metricas_da_sequencia (pd_DataFrame lotes_exemplo)
              C_URGENCIA_NIVEL C_SETUP C_ESPESSURA
              (lote_exemplo "L1" "A" 40 1) (tail lotes_exemplo)
              [ {| setup := "A"; peso := 80; atingiu_meta := false |};
                {| setup := "B"; peso := 130; atingiu_meta := true |};
                {| setup := "A"; peso := 10; atingiu_meta := false |} ])
    as (m & Hm & _ & Hc & _).
  - vm_compute. reflexivity.
  - exists m. split; [exact Hm|]. rewrite Hc. reflexivity.
Defined.

End MetricasTeoremas.

(** ** Priority selection of the interface *)

Section Prioridades.

(** Whatever is chosen in the three select boxes, the second among the
    options left by the first and the third among those left by both,
    the lookup of the labels raises nothing and the priorities are the
    three sort columns, each exactly once. *)
Theorem priorities_de_selecao (p1 p2 p3 : string) :
  In p1 priority_options -> In p2 (options_p2 p1) -> In p3 (options_p3 p1 p2) ->
  exists c1 c2 c3,
    priorities_de p1 p2 p3 = Ok (c1, c2, c3)
    /\ Permutation [c1; c2; c3] [C_URGENCIA_NIVEL; C_SETUP; C_ESPESSURA].
Proof.
  intros H1 H2 H3.
  vm_compute in H1. destruct H1 as [<-|[<-|[<-|[]]]];
    vm_compute in H2; destruct H2 as [<-|[<-|[]]];
    vm_compute in H3; destruct H3 as [<-|[]];
    eexists _, _, _; (split; [vm_compute; reflexivity|]);
    solve [ reflexivity
          | apply perm_swap
          | apply perm_skip, perm_swap
          | etransitivity; [apply perm_swap|apply perm_skip, perm_swap]
          | etransitivity; [apply perm_skip, perm_swap|apply perm_swap]
          | etransitivity; [apply perm_swap|];
            etransitivity; [apply perm_skip, perm_swap|apply perm_swap] ].
Qed.

Lemma priorities_de_selecao_witness :
  exists c1 c2 c3,
    priorities_de "Setup (Plaina/Largura)" "Urgência (Data)" "Espessura"
    = Ok (c1, c2, c3).
Proof.
  destruct (priorities_de_selecao
              "Setup (Plaina/Largura)" "Urgência (Data)" "Espessura")
    as (c1 & c2 & c3 & H & _).
  - vm_compute. tauto.
  - vm_compute. tauto.
  - vm_compute. tauto.
  - by exists c1, c2, c3.
Defined.

End Prioridades.

(** ** Reporter: what a row of the report carries *)

Section RelatorioColunas.

Lemma drop_duplicates_elem_of (x : Lote) (l : list Lote) :
  x ∈ drop_duplicates l -> x ∈ l.
Proof.
  revert x. induction l as [|y l IH]; intros x; simpl; [done|].
  rewrite !elem_of_cons, list_elem_of_filter. intros [->|[_ H]]; auto.
Qed.

Lemma drop_duplicates_ids (id : string) (l : list Lote) :
  id ∈ map LOTE l -> id ∈ map LOTE (drop_duplicates l).
Proof.
  rewrite !map_fmap, !list_elem_of_fmap.
  induction l as [|y l IH]; intros (x & -> & Hx); [by apply elem_of_nil in Hx|].
  simpl. destruct (decide (LOTE x = LOTE y)) as [E|E].
  - exists y. split; [done|apply list_elem_of_here].
  - apply elem_of_cons in Hx as [->|Hx]; [done|].
    destruct IH as (z & Hz & Hin); [eauto|].
    exists z. split; [done|]. apply elem_of_cons. right.
    apply list_elem_of_filter. split; [congruence|done].
Qed.

Lemma set_index_lookup (id : string) (l : list Lote) :
  id ∈ map LOTE l ->
  exists lote, set_index (drop_duplicates l) !! id = Some lote
               /\ lote ∈ l /\ LOTE lote = id.
Proof.
  intros Hid%drop_duplicates_ids. unfold set_index.
  destruct (list_to_map (M:=gmap string Lote) _ !! id) as [lote|] eqn:E.
  - exists lote. split; [done|].
    apply elem_of_list_to_map_2 in E. rewrite map_fmap in E.
    apply list_elem_of_fmap in E as (x & [= -> ->] & Hx).
    split; [by apply drop_duplicates_elem_of|done].
  - exfalso. apply not_elem_of_list_to_map in E. apply E.
    rewrite (map_fmap LOTE) in Hid.
    apply list_elem_of_fmap in Hid as (x & -> & Hx).
    apply list_elem_of_fmap. exists (LOTE x, x). split; [done|].
    rewrite (map_fmap (fun x => (LOTE x, x))).
    apply list_elem_of_fmap. by exists x.
Qed.

Lemma length_unique (l : list string) : (length (unique l) <= length l)%nat.
Proof.
  induction l as [|x l IH]; simpl; [done|].
  pose proof (length_filter (fun y => y ≠ x) (unique l)). lia.
Qed.

End RelatorioColunas.

Section RelatorioColunasTeoremas.
Variable sort_values_posicao : list LinhaRelatorio -> list LinhaRelatorio.
Hypothesis sort_values_posicao_perm :
  forall l, Permutation (sort_values_posicao l) l.

Local Abbreviation relatorio := (gerar_relatorio_final sort_values_posicao).

Lemma relatorio_linha (seq : list Lote) (rows : list LineItem)
    (r : LinhaRelatorio) :
  r ∈ relatorio seq rows ->
  seq <> []
  /\ exists l, l ∈ rows
      /\ linha_final (mapa_posicao_de (unique (map LOTE seq)))
                     (set_index (drop_duplicates seq)) l = Some r.
Proof.
  unfold gerar_relatorio_final. destruct seq as [|x seq'].
  - by intros ?%elem_of_nil.
  - rewrite sort_values_posicao_perm. intros H%list_elem_of_omap. by split.
Qed.

(** Every row of the report is a row of the input, carries the setup
    key and the urgency label of a lot of the sequence that has its lot
    id, and has a position between 1 and the number of lots. *)
Theorem relatorio_colunas (seq : list Lote) (rows : list LineItem)
    (r : LinhaRelatorio) :
  r ∈ relatorio seq rows ->
  linha_original r ∈ rows
  /\ 1 <= Posicao_na_Sequencia r <= Z.of_nat (length seq)
  /\ exists lote,
      lote ∈ seq
      /\ LOTE lote = row_LOTE (linha_original r)
      /\ rel_SETUP r = Some (SETUP lote)
      /\ rel_URGENCIA r = Some (URGENCIA_NOME lote).
Proof.
  intros (Hne & l & Hl & Hr)%relatorio_linha.
  unfold linha_final in Hr.
  destruct (mapa_posicao_de _ !! row_LOTE l) as [p|] eqn:E; [|done].
  assert (Hid : row_LOTE l ∈ map LOTE seq).
  { apply mapa_posicao_is_Some. by rewrite E. }
  destruct (set_index_lookup _ _ Hid) as (lote & Hlk & Hin & Hlote).
  rewrite Hlk in Hr. injection Hr as <-. simpl.
  split; [done|]. split; [|by exists lote].
  apply mapa_posicao_lookup in E as (k & Hk & ->); [|apply unique_NoDup].
  apply lookup_lt_Some in Hk.
  pose proof (length_unique (map LOTE seq)) as Hu. rewrite length_map in Hu.
  lia.
Qed.

(** After the aggregator and the sequencer no row is dropped: the
    report holds every row of the input exactly once. *)
Theorem relatorio_completo (DATA_ATUAL : Z) (rows : list LineItem)
    (p1 p2 p3 : Coluna) (seq : list Lote) (batches : list Batch) :
  otimizar_sequencia (processar_dados_lote DATA_ATUAL rows) (p1, p2, p3)
    = Ok (seq, batches) ->
  Permutation (map linha_original (relatorio seq rows)) rows.
Proof.
  intros H. apply otimizar_sequencia_Ok in H as [Hs _].
  rewrite (linhas_do_relatorio _ sort_values_posicao_perm).
  rewrite filter_todos; [done|].
  apply Forall_forall. intros r Hr.
  pose proof (ids_do_agregador DATA_ATUAL rows) as (_ & Hin & _).
  apply list_elem_of_In.
  apply (Permutation_in (l:=map LOTE (records (processar_dados_lote DATA_ATUAL rows)))).
  - apply Permutation_map. rewrite Hs. symmetry. apply ordenar_perm.
  - apply Hin, in_map. by apply list_elem_of_In.
Qed.

End RelatorioColunasTeoremas.

Lemma relatorio_colunas_witness :
  exists r, r ∈ gerar_relatorio_final (ordenar compara_posicao)
                  sequencia_exemplo linhas_exemplo
            /\ 1 <= Posicao_na_Sequencia r.
Proof.
  eexists. split.
  - apply list_elem_of_here.
  - eapply (relatorio_colunas (ordenar compara_posicao)
              (ordenar_perm compara_posicao)
              sequencia_exemplo linhas_exemplo).
    apply list_elem_of_here.
Defined.

Lemma relatorio_completo_witness :
  Permutation
    (map linha_original
       (gerar_relatorio_final (ordenar compara_posicao)
          sequencia_exemplo linhas_exemplo))
    linhas_exemplo.
Proof.
  eapply (relatorio_completo (ordenar compara_posicao)
            (ordenar_perm compara_posicao)
            0 linhas_exemplo C_URGENCIA_NIVEL C_SETUP C_ESPESSURA).
  vm_compute. reflexivity.
Defined.

(** ** Sequencer: errors and the weight of the priorities *)

Section SequenciadorMais.

(** On the frame built from a list of lot records the sequencer raises
    exactly when the list is empty, and what it raises is [KeyError] on
    the first priority. *)
Theorem otimizar_sequencia_erro (lotes : list Lote) (p1 p2 p3 : Coluna) :
  ((exists e, otimizar_sequencia (pd_DataFrame lotes) (p1, p2, p3) = Erro e)
   <-> lotes = [])
  /\ (forall e, otimizar_sequencia (pd_DataFrame lotes) (p1, p2, p3) = Erro e ->
                e = KeyError (nome_coluna p1)).
Proof.
  destruct lotes as [|x l].
  - split; [split; [done|intros _; by eexists]|]. by intros e [= <-].
  - destruct (otimizar_sequencia_colunas (pd_DataFrame (x :: l)) p1 p2 p3)
      as (seq & batches & H); [intros c _; apply todas_colunas|].
    rewrite H. split; [split; [by intros [e ?]|done]|done].
Qed.

Lemma otimizar_sequencia_erro_witness :
  otimizar_sequencia (pd_DataFrame []) prioridades_exemplo
  = Erro (KeyError "URGENCIA_NIVEL").
Proof.
  destruct (otimizar_sequencia (pd_DataFrame []) prioridades_exemplo)
    as [v|e] eqn:E.
  - discriminate E.
  - f_equal.
    exact (proj2 (otimizar_sequencia_erro [] C_URGENCIA_NIVEL C_SETUP C_ESPESSURA)
             e E).
Defined.

Lemma sorted_primeira_coluna (c : Coluna) (resto : list Coluna) (seq : list Lote) :
  StronglySorted (nao_depois (compara_por (c :: resto))) seq ->
  StronglySorted (nao_depois (compara_col c)) seq.
Proof.
  induction 1 as [|x l _ IH Hall]; constructor; [done|].
  eapply Forall_impl; [exact Hall|].
  intros y Hy E. apply Hy. simpl. by rewrite E.
Qed.

(** The first priority decides: along the sequence its column never
    decreases; with the urgency first no lot comes before a more urgent
    one, and lots that agree on the three priorities follow each other
    by due date, those without a date last. *)
Theorem primeira_prioridade_decide (df : DataFrame) (p1 p2 p3 : Coluna)
    (seq : list Lote) (batches : list Batch) :
  otimizar_sequencia df (p1, p2, p3) = Ok (seq, batches) ->
  StronglySorted (fun a b => compara_col p1 a b <> Gt) seq
  /\ (p1 = C_URGENCIA_NIVEL ->
      StronglySorted (fun a b => URGENCIA_NIVEL a <= URGENCIA_NIVEL b) seq)
  /\ (forall pre a meio b post,
        seq = pre ++ a :: meio ++ b :: post ->
        compara_col p1 a b = Eq -> compara_col p2 a b = Eq ->
        compara_col p3 a b = Eq ->
        match DATA_ENTREGA a, DATA_ENTREGA b with
        | Some da, Some db => da <= db
        | None, Some _ => False
        | _, None => True
        end).
Proof.
  intros H. apply otimizar_sequencia_Ok in H as [Hs _]. unfold chaves in Hs.
  assert (Hsort : StronglySorted
            (nao_depois (compara_por [p1; p2; p3; C_DATA_ENTREGA])) seq).
  { rewrite Hs. apply ordenar_sorted, _. }
  pose proof (sorted_primeira_coluna _ _ _ Hsort) as H1.
  split; [exact H1|]. split.
  - intros ->. exact H1.
  - intros pre a meio b post -> E1 E2 E3.
    apply StronglySorted_app_1_r in Hsort.
    inversion Hsort as [|? ? _ Hall]; subst.
    rewrite Forall_forall in Hall.
    assert (Hab : nao_depois (compara_por [p1; p2; p3; C_DATA_ENTREGA]) a b).
    { apply Hall. apply elem_of_app. right. apply list_elem_of_here. }
    unfold nao_depois in Hab. simpl in Hab. rewrite E1, E2, E3 in Hab.
    unfold compara_col, compara_data in Hab.
    destruct (DATA_ENTREGA a) as [da|], (DATA_ENTREGA b) as [db|];
      simpl in Hab; [|done|congruence|done].
    intros E. apply Hab. by rewrite E.
Qed.

Lemma primeira_prioridade_decide_witness :
  StronglySorted (fun a b => URGENCIA_NIVEL a <= URGENCIA_NIVEL b) lotes_exemplo.
Proof.
  eapply (primeira_prioridade_decide (pd_DataFrame lotes_exemplo)
            C_URGENCIA_NIVEL C_SETUP C_ESPESSURA).
  - vm_compute. reflexivity.
  - reflexivity.
Defined.

Lemma drop_duplicates_NoDup (l : list Lote) :
  NoDup (map LOTE l) -> drop_duplicates l = l.
Proof.
  induction l as [|x l IH]; simpl; [done|].
  intros [Hx Hnd]%NoDup_cons. rewrite (IH Hnd). f_equal.
  apply filter_todos. apply Forall_forall. intros y Hy E.
  apply Hx. rewrite <- E, map_fmap. apply list_elem_of_fmap. eauto.
Qed.

(** The number of lots of the metrics table is the number of lots of
    the sequence, which is the number of lots the aggregator built,
    one per lot id of the rows. *)
Theorem metricas_total_lotes (DATA_ATUAL : Z) (df : list LineItem)
    (p1 p2 p3 : Coluna) (seq : list Lote) (batches : list Batch)
    (m : Metricas) :
  otimizar_sequencia (processar_dados_lote DATA_ATUAL df) (p1, p2, p3)
    = Ok (seq, batches) ->
  calcular_metricas seq batches = Some m ->
  total_lotes_processados m = Z.of_nat (length seq)
  /\ length seq = length (chaves_ordenadas (map row_LOTE df)).
Proof.
  intros H Hm. apply otimizar_sequencia_Ok in H as [Hs _].
  assert (Hperm : Permutation seq (records (processar_dados_lote DATA_ATUAL df)))
    by (rewrite Hs; apply ordenar_perm).
  pose proof (ids_do_agregador DATA_ATUAL df) as (Hnd & _ & _).
  assert (Hnd' : NoDup (map LOTE seq)).
  { by rewrite (Permutation_map LOTE Hperm). }
  unfold calcular_metricas in Hm. destruct batches as [|b bs]; [done|].
  injection Hm as <-. simpl. rewrite (drop_duplicates_NoDup seq Hnd').
  split; [done|].
  rewrite (Permutation_length Hperm), <- (length_map LOTE).
  by rewrite processar_dados_lote_ids.
Qed.

Lemma metricas_total_lotes_witness :
  exists m, total_lotes_processados m = Z.of_nat (length sequencia_exemplo).
Proof.
  eexists.
  eapply (metricas_total_lotes 0 linhas_exemplo
            C_URGENCIA_NIVEL C_SETUP C_ESPESSURA sequencia_exemplo).
  - vm_compute. reflexivity.
  - vm_compute. reflexivity.
Defined.

End SequenciadorMais.
